(** * Concatenator: a shallow embedding of [concatenator.py]

    The development follows the Python source: the type classifier
    [is_allowed], the concatenation routine [concatenate_file_list], the
    manifest importer [parse_file_list] with its local function [norm], and
    the natural sort the program obtains from [natsort.natsorted].

    Text is modelled by [string]; a character of the model is a code point
    below 256.  File names, environment and file system are explicit: the
    functions of [os.path] the program calls are the fields of the class
    [OsPath], with a POSIX instance transcribed from CPython's
    [posixpath]/[genericpath] modules. *)

From Stdlib Require Import Ascii ZArith Lia Sorted.
From Stdlib Require String DecimalString.
From stdpp Require Import base option list gmap strings.

Local Open Scope Z_scope.

(** ** Python [str] operations used by the program *)

Module pystr.

Definition nl : string := String (ascii_of_nat 10) EmptyString.

Definition code (c : ascii) : N := N_of_ascii c.

(** [str.lower] on one character: the ASCII capitals and, above them, the
    Latin-1 capitals U+00C0..U+00DE without the multiplication sign. *)
Definition lower_char (c : ascii) : ascii :=
  let n := code c in
  if ((65 <=? n) && (n <=? 90))%N then ascii_of_N (n + 32)
  else if ((192 <=? n) && (n <=? 222) && negb (n =? 215))%N
       then ascii_of_N (n + 32)
  else c.

Fixpoint lower (s : string) : string :=
  match s with
  | EmptyString => EmptyString
  | String c t => String (lower_char c) (lower t)
  end.

(** [str.isspace] on one character. *)
Definition isspace (c : ascii) : bool :=
  let n := code c in
  (((9 <=? n) && (n <=? 13)) || ((28 <=? n) && (n <=? 32))
   || (n =? 133) || (n =? 160))%N.

Definition chars (s : string) : list ascii := String.list_ascii_of_string s.
Definition of_chars (l : list ascii) : string := String.string_of_list_ascii l.

Fixpoint lstrip_by (f : ascii -> bool) (s : string) : string :=
  match s with
  | EmptyString => EmptyString
  | String c t => if f c then lstrip_by f t else s
  end.

Definition rstrip_by (f : ascii -> bool) (s : string) : string :=
  of_chars (rev (chars (lstrip_by f (of_chars (rev (chars s)))))).

(** [s.strip()] *)
Definition strip (s : string) : string := rstrip_by isspace (lstrip_by isspace s).

(** [s.rstrip(c)] for a one-character argument *)
Definition rstrip (c : ascii) (s : string) : string :=
  rstrip_by (fun a => bool_decide (a = c)) s.

(** [s.startswith(p)] and [s.endswith(p)] *)
Definition startswith (p s : string) : bool := String.prefix p s.

Definition endswith (p s : string) : bool :=
  String.prefix (of_chars (rev (chars p))) (of_chars (rev (chars s))).

Definition len (s : string) : Z := Z.of_nat (String.length s).

(** Slices with non-negative bounds: [s[i:]], [s[:j]], [s[i:j]]. *)
Fixpoint drop_chars (n : nat) (s : string) : string :=
  match n, s with
  | O, _ => s
  | S _, EmptyString => EmptyString
  | S k, String _ t => drop_chars k t
  end.

Fixpoint take_chars (n : nat) (s : string) : string :=
  match n, s with
  | O, _ => EmptyString
  | S _, EmptyString => EmptyString
  | S k, String c t => String c (take_chars k t)
  end.

Definition slice_from (i : Z) (s : string) : string := drop_chars (Z.to_nat i) s.
Definition slice_to (j : Z) (s : string) : string := take_chars (Z.to_nat j) s.
Definition slice (i j : Z) (s : string) : string :=
  take_chars (Z.to_nat (j - i)) (drop_chars (Z.to_nat i) s).

(** [s[1:-1]] *)
Definition slice_1_m1 (s : string) : string := slice 1 (len s - 1) s.

(** [s.rfind(c)]: the highest index of [c], or -1. *)
Fixpoint rfind_from (c : ascii) (s : string) (i found : Z) : Z :=
  match s with
  | EmptyString => found
  | String a t => rfind_from c t (i + 1) (if bool_decide (a = c) then i else found)
  end.

Definition rfind (c : ascii) (s : string) : Z := rfind_from c s 0 (-1).

(** [s.find(c, start)]: the lowest index of [c] at or after [start], or -1. *)
Fixpoint find_in (c : ascii) (s : string) (i : Z) : Z :=
  match s with
  | EmptyString => -1
  | String a t => if bool_decide (a = c) then i else find_in c t (i + 1)
  end.

Definition find (c : ascii) (start : Z) (s : string) : Z :=
  find_in c (slice_from start s) start.

(** [c in s] *)
Definition contains_char (c : ascii) (s : string) : bool :=
  bool_decide (0 <= find c 0 s).

(** [s.split(c)] for a one-character separator. *)
Fixpoint split_acc (c : ascii) (s : string) (cur : list ascii) : list string :=
  match s with
  | EmptyString => [of_chars (rev cur)]
  | String a t =>
      if bool_decide (a = c) then of_chars (rev cur) :: split_acc c t []
      else split_acc c t (a :: cur)
  end.

Definition split (c : ascii) (s : string) : list string := split_acc c s [].

(** [sep.join(parts)] *)
Definition str_join (sep : string) (parts : list string) : string :=
  String.concat sep parts.

Definition is_empty (s : string) : bool :=
  match s with EmptyString => true | _ => false end.

End pystr.

(** ** [os.path] *)

(** The functions of [os.path] (and [os.path.isfile], which consults the file
    system) that the program calls. *)
Class OsPath := {
  basename : string -> string;
  dirname : string -> string;
  splitext : string -> string * string;
  isabs : string -> bool;
  join : string -> string -> string;
  normpath : string -> string;
  abspath : string -> string;
  normcase : string -> string;
  expanduser : string -> string;
  expandvars : string -> string;
  isfile : string -> bool
}.

(** ** The type classifier *)

Definition ALLOWED_EXTS : list string :=
  [ ".txt"; ".md"; ".markdown"; ".rst"; ".html"; ".htm"; ".xml"; ".csv"; ".tsv";
    ".ini"; ".cfg"; ".conf"; ".properties"; ".env";
    ".json"; ".yaml"; ".yml"; ".toml";
    ".py"; ".js"; ".jsx"; ".ts"; ".tsx";
    ".java"; ".c"; ".cpp"; ".h"; ".hpp"; ".cs"; ".go"; ".rb"; ".php"; ".swift"; ".kt";
    ".sh"; ".bash"; ".zsh"; ".fish"; ".ps1"; ".bat";
    ".sql"; ".pl"; ".lua"; ".r"; ".scala"; ".clj"; ".groovy"; ".dart";
    ".css"; ".scss"; ".less" ].

Definition ALLOWED_NAMES : list string :=
  [ "license"; "makefile"; "dockerfile";
    ".editorconfig"; ".gitattributes"; ".gitignore"; ".dockerignore" ].

(** [x in S] for the two literal sets above. *)
Definition mem (x : string) (S : list string) : bool := bool_decide (x ∈ S).

Definition is_allowed `{OsPath} (path : string) : bool :=
  let name := basename path in
  let lower_name := pystr.lower name in
  if mem lower_name ALLOWED_NAMES then true
  else
    let '(_, ext) := splitext lower_name in
    mem ext ALLOWED_EXTS.

(** ** CPython's [posixpath], the [os.path] of a POSIX host *)

Module posixpath.
Import pystr.

Definition sep : ascii := "/"%char.
Definition extsep : ascii := "."%char.

(** What the path functions read from the process and the system. *)
Record process := {
  cwd : string;                  (* os.getcwd() *)
  environ : gmap string string;  (* os.environ *)
  login : string;                (* the name behind os.getuid() *)
  passwd : gmap string string    (* pwd: user name to home directory *)
}.

Definition normcase (s : string) : string := s.

Definition isabs (s : string) : bool := startswith "/" s.

Definition join (a b : string) : string :=
  if startswith "/" b then b
  else if is_empty a || endswith "/" a then a +:+ b
  else a +:+ "/" +:+ b.

Definition basename (p : string) : string :=
  let i := rfind sep p + 1 in
  slice_from i p.

(** [sep * len(head)] *)
Fixpoint all_sep (s : string) : bool :=
  match s with
  | EmptyString => true
  | String c t => bool_decide (c = sep) && all_sep t
  end.

Definition dirname (p : string) : string :=
  let i := rfind sep p + 1 in
  let head := slice_to i p in
  if negb (is_empty head) && negb (all_sep head) then rstrip sep head else head.

(** The [while] loop of [genericpath._splitext]: [Some] is the early
    [return] inside the loop, [None] is leaving the loop. *)
Fixpoint _splitext_loop (p : string) (filenameIndex dotIndex : Z) (fuel : nat)
  : option (string * string) :=
  match fuel with
  | O => None
  | S fuel' =>
      if filenameIndex <? dotIndex then
        if negb (String.eqb (slice filenameIndex (filenameIndex + 1) p) ".")
        then Some (slice_to dotIndex p, slice_from dotIndex p)
        else _splitext_loop p (filenameIndex + 1) dotIndex fuel'
      else None
  end.

Definition _splitext (p : string) (sep extsep : ascii) : string * string :=
  let sepIndex := rfind sep p in
  let dotIndex := rfind extsep p in
  let found :=
    if dotIndex >? sepIndex then
      _splitext_loop p (sepIndex + 1) dotIndex (String.length p)
    else None in
  match found with
  | Some r => r
  | None => (p, EmptyString)
  end.

Definition splitext (p : string) : string * string := _splitext p sep extsep.

(** The loop over [comps] in [normpath]; [new_comps] is kept reversed. *)
Fixpoint normpath_comps (initial_slashes : Z) (comps new_comps : list string)
  : list string :=
  match comps with
  | [] => rev new_comps
  | comp :: rest =>
      if String.eqb comp "" || String.eqb comp "." then
        normpath_comps initial_slashes rest new_comps
      else if negb (String.eqb comp "..")
              || ((initial_slashes =? 0) && bool_decide (new_comps = []))
              || match new_comps with
                 | last :: _ => String.eqb last ".."
                 | [] => false
                 end
      then normpath_comps initial_slashes rest (comp :: new_comps)
      else normpath_comps initial_slashes rest (tail new_comps)
  end.

Fixpoint repeat_sep (n : nat) : string :=
  match n with
  | O => EmptyString
  | S k => String sep (repeat_sep k)
  end.

Definition normpath (path : string) : string :=
  if is_empty path then "."
  else
    let initial_slashes :=
      if startswith "/" path then
        if startswith "//" path && negb (startswith "///" path) then 2 else 1
      else 0 in
    let comps := normpath_comps initial_slashes (split sep path) [] in
    let path := pystr.str_join "/" comps in
    let path := repeat_sep (Z.to_nat initial_slashes) +:+ path in
    if is_empty path then "." else path.

Definition abspath (ps : process) (path : string) : string :=
  if negb (isabs path) then normpath (join (cwd ps) path)
  else normpath path.

Definition expanduser (ps : process) (path : string) : string :=
  if negb (startswith "~" path) then path
  else
    let i := find sep 1 path in
    let i := if i <? 0 then len path else i in
    let userhome :=
      if i =? 1 then
        match environ ps !! "HOME" with
        | Some h => Some h
        | None => passwd ps !! login ps
        end
      else passwd ps !! slice 1 i path in
    match userhome with
    | None => path
    | Some userhome =>
        let userhome := rstrip sep userhome in
        let r := userhome +:+ slice_from i path in
        if is_empty r then "/" else r
    end.

(** [\w] under [re.ASCII] *)
Definition is_word (c : ascii) : bool :=
  let n := code c in
  (((48 <=? n) && (n <=? 57)) || ((65 <=? n) && (n <=? 90))
   || ((97 <=? n) && (n <=? 122)) || (n =? 95))%N.

Fixpoint span_by (f : ascii -> bool) (s : string) : string * string :=
  match s with
  | EmptyString => (EmptyString, EmptyString)
  | String c t =>
      if f c then let '(a, b) := span_by f t in (String c a, b)
      else (EmptyString, s)
  end.

(** [re.sub] of [\$(\w+|\{[^}]*\}?)] with the replacement function [repl]:
    matches are found left to right and a replacement is not rescanned. *)
Fixpoint expandvars_sub (ps : process) (s : string) (fuel : nat) : string :=
  match fuel with
  | O => s
  | S fuel' =>
      match s with
      | EmptyString => EmptyString
      | String c t =>
          if bool_decide (c = "$"%char) then
            match t with
            | String "{"%char u =>
                let '(name, rest) := span_by (fun a => negb (bool_decide (a = "}"%char))) u in
                match rest with
                | String _ rest' =>
                    (* the match is "${name}" *)
                    match environ ps !! name with
                    | Some value => value +:+ expandvars_sub ps rest' fuel'
                    | None => "${" +:+ name +:+ "}" +:+ expandvars_sub ps rest' fuel'
                    end
                | EmptyString =>
                    (* the match is "${name" up to the end: left as it is *)
                    s
                end
            | _ =>
                let '(name, rest) := span_by is_word t in
                if is_empty name then String c (expandvars_sub ps t fuel')
                else
                  match environ ps !! name with
                  | Some value => value +:+ expandvars_sub ps rest fuel'
                  | None => "$" +:+ name +:+ expandvars_sub ps rest fuel'
                  end
            end
          else String c (expandvars_sub ps t fuel')
      end
  end.

Definition expandvars (ps : process) (path : string) : string :=
  if negb (contains_char "$"%char path) then path
  else expandvars_sub ps path (S (String.length path)).

End posixpath.

(** The POSIX instance, over a process and an [isfile] predicate of the file
    system. *)
Definition posix_OsPath (ps : posixpath.process) (isfile : string -> bool) : OsPath :=
  {| basename := posixpath.basename;
     dirname := posixpath.dirname;
     splitext := posixpath.splitext;
     isabs := posixpath.isabs;
     join := posixpath.join;
     normpath := posixpath.normpath;
     abspath := posixpath.abspath ps;
     normcase := posixpath.normcase;
     expanduser := posixpath.expanduser ps;
     expandvars := posixpath.expandvars ps;
     isfile := isfile |}.

(** ** Exceptions, files and the console *)

Inductive exception :=
  | ValueError (msg : string)
  | IOError (msg : string)
  | FileNotFoundError (msg : string)
  | PermissionError (msg : string)
  | IsADirectoryError (msg : string)
  | UnicodeDecodeError (msg : string).

(** [str(e)] *)
Definition str (e : exception) : string :=
  match e with
  | ValueError m | IOError m | FileNotFoundError m | PermissionError m
  | IsADirectoryError m | UnicodeDecodeError m => m
  end.

(** What a path, as handed to [open], denotes.  A regular file is accessible
    or not, and its bytes decode as UTF-8 to a text or do not.

    The file system is keyed by the path as it is spelled, so two spellings
    of one file are two keys.  No statement below rests on two different
    paths being two different files: what is stated of a run is what it
    reads under its input paths, what the output path holds when the run
    returns, and that nothing has changed when nothing was opened for
    writing or [open] itself failed. *)
Inductive node :=
  | Directory
  | Regular (accessible : bool) (utf8 : option string).

Record World := {
  fs : gmap string node;
  stdout : list string      (* the lines printed so far *)
}.

Definition print (w : World) (line : string) : World :=
  {| fs := fs w; stdout := stdout w ++ [line] |}.

(** [with open(p, 'r', encoding='utf-8') as f: text = f.read()] *)
Definition open_read (w : World) (p : string) : exception + string :=
  match fs w !! p with
  | None => inl (FileNotFoundError ("[Errno 2] No such file or directory: '" +:+ p +:+ "'"))
  | Some Directory => inl (IsADirectoryError ("[Errno 21] Is a directory: '" +:+ p +:+ "'"))
  | Some (Regular false _) => inl (PermissionError ("[Errno 13] Permission denied: '" +:+ p +:+ "'"))
  | Some (Regular true None) => inl (UnicodeDecodeError "'utf-8' codec can't decode bytes")
  | Some (Regular true (Some text)) => inr text
  end.

(** [with open(p, 'w', encoding='utf-8') as out: out.write(text)]: the file
    is created or overwritten as a whole, or [open] fails and nothing has
    changed.  A write that fails after [open] has emptied the file (a full
    device) is outside this model: of a run that raises, the file system
    is stated only for the failures of [open] itself. *)
Definition open_write (w : World) (p : string) (text : string) : exception + World :=
  match fs w !! p with
  | Some Directory => inl (IsADirectoryError ("[Errno 21] Is a directory: '" +:+ p +:+ "'"))
  | Some (Regular false _) => inl (PermissionError ("[Errno 13] Permission denied: '" +:+ p +:+ "'"))
  | Some (Regular true _) | None =>
      inr {| fs := <[p := Regular true (Some text)]> (fs w); stdout := stdout w |}
  end.

(** ** The concatenator *)

Section concatenator.
Context `{OsPath}.
Import pystr.

(** The body of [for file_path in file_paths]: the state is the world and
    the list [output_content]. *)
Definition read_one (st : World * list string) (file_path : string)
  : World * list string :=
  let '(w, output_content) := st in
  let filename := basename file_path in
  match open_read w file_path with
  | inr text =>
      (w, output_content
            ++ ["--- File: " +:+ filename +:+ " ---" +:+ nl +:+ nl]
            ++ [text]
            ++ [nl +:+ nl])
  | inl e =>
      (print w ("Error reading " +:+ file_path +:+ ": " +:+ str e), output_content)
  end.

Definition concatenate_file_list (w : World) (file_paths : list string)
    (output_path : string) : World * (exception + unit) :=
  match file_paths with
  | [] => (w, inl (ValueError "No files to concatenate."))
  | _ =>
      let '(w1, output_content) := foldl read_one (w, []) file_paths in
      match open_write w1 output_path (pystr.str_join "" output_content) with
      | inr w2 =>
          (print w2 ("Concatenated file saved to: " +:+ output_path), inr ())
      | inl e =>
          (w1, inl (IOError ("Error writing to " +:+ output_path +:+ ": " +:+ str e)))
      end
  end.

End concatenator.

(** ** The list-file importer *)

(** The report [parse_file_list] returns: a dict with these four keys. *)
Record report := {
  added_paths : list string;
  already_present : list string;
  not_found : list string;
  skipped_not_allowed : list string
}.

Definition empty_report : report :=
  {| added_paths := []; already_present := []; not_found := [];
     skipped_not_allowed := [] |}.

(** A call of [tkinter.messagebox]. *)
Inductive dialog :=
  | showerror (title message : string)
  | showinfo (title message : string).

(** Reading the list file: the locale, and
    [with open(list_path, "r", encoding=enc) as f: lines = f.readlines()]. *)
Class ListFileIO := {
  getpreferredencoding : string;
  open_readlines : string -> string -> exception + list string
}.

Definition dquote : string := String (ascii_of_nat 34) EmptyString.

Section importer.
Context `{OsPath} `{ListFileIO}.
Import pystr.

Definition norm (p : string) : string := normcase (normpath (abspath p)).

(** [for enc in encodings]: the result is [(lines, last_err)], or the
    exception the loop lets through. *)
Fixpoint read_lines (list_path : string) (encodings : list string)
    (last_err : option exception) : exception + (list string * option exception) :=
  match encodings with
  | [] => inr ([], last_err)
  | enc :: rest =>
      match open_readlines list_path enc with
      | inr lines => inr (lines, None)
      | inl (UnicodeDecodeError m) =>
          read_lines list_path rest (Some (UnicodeDecodeError m))
      | inl e => inl e
      end
  end.

Definition unquote (line : string) : string :=
  if (startswith dquote line && endswith dquote line)
     || (startswith "'" line && endswith "'" line)
  then slice_1_m1 line
  else line.

(** The body of [for raw in lines]. *)
Definition import_line (base_dir : string) (existing : gset string)
    (r : report) (raw : string) : report :=
  let line := strip raw in
  if is_empty line then r
  else if startswith "#" line || startswith ";" line then r
  else
    let line := unquote line in
    let line := expandvars (expanduser line) in
    let candidate := if negb (isabs line) then join base_dir line else line in
    let candidate := abspath (normpath candidate) in
    if negb (is_allowed candidate) then
      {| added_paths := added_paths r;
         already_present := already_present r;
         not_found := not_found r;
         skipped_not_allowed := skipped_not_allowed r ++ [line] |}
    else if negb (isfile candidate) then
      {| added_paths := added_paths r;
         already_present := already_present r;
         not_found := not_found r ++ [line];
         skipped_not_allowed := skipped_not_allowed r |}
    else
      let n := norm candidate in
      if bool_decide (n ∈ existing)
         || existsb (fun p => bool_decide (norm p = n)) (added_paths r)
      then
        {| added_paths := added_paths r;
           already_present := already_present r ++ [candidate];
           not_found := not_found r;
           skipped_not_allowed := skipped_not_allowed r |}
      else
        {| added_paths := added_paths r ++ [candidate];
           already_present := already_present r;
           not_found := not_found r;
           skipped_not_allowed := skipped_not_allowed r |}.

(** [preferred = locale.getpreferredencoding(False) or "cp1252"] and the
    list [encodings]. *)
Definition encodings : list string :=
  let preferred :=
    if is_empty getpreferredencoding then "cp1252" else getpreferredencoding in
  ["utf-8-sig"; preferred; "cp1252"; "latin-1"].

(** [parse_file_list]: [selected_files] is [self.selected_files]; the
    result is the dialogs shown and the exception raised or the report
    returned. *)
Definition parse_file_list (selected_files : list string) (list_path : string)
  : list dialog * (exception + report) :=
  let existing : gset string := list_to_set (norm <$> selected_files) in
  let base_dir := dirname list_path in
  match read_lines list_path encodings None with
  | inl e => ([], inl e)
  | inr (lines, last_err) =>
      match last_err, lines with
      | Some err, [] =>
          ([showerror "Error"
              ("Could not decode list file using common encodings. Last error: "
               +:+ str err)],
           inr empty_report)
      | _, _ =>
          ([], inr (foldl (import_line base_dir existing) empty_report lines))
      end
  end.

End importer.

(** ** [natsort.natsorted] with the library's default algorithm

    The program calls [natsorted(xs)] with no [key] and no [alg]: the
    library's [ns.DEFAULT].  The key of a string is the tuple of its maximal
    runs, a run of the digits 0-9 as an [int] and any other run as the [str]
    it is, with the empty string put in front of a leading number; the list
    is then sorted on these tuples by Python's stable [sorted].

    The library is not part of the repository.  This is its key for ASCII
    text: on other text the library first normalizes the string (NFD, so
    that an accented letter becomes its base letter and a combining mark)
    and also reads characters such as the superscript digits as numbers,
    neither of which is modelled here. *)

Module natsort.

Inductive component :=
  | Str (s : string)
  | Int (n : N).

Definition is_digit (c : ascii) : bool :=
  let n := pystr.code c in ((48 <=? n) && (n <=? 57))%N.

(** The maximal runs of a string, each with whether it is a run of digits. *)
Fixpoint runs (s : string) : list (bool * string) :=
  match s with
  | EmptyString => []
  | String c t =>
      match runs t with
      | (d, r) :: rest =>
          if Bool.eqb d (is_digit c) then (d, String c r) :: rest
          else (is_digit c, String c EmptyString) :: (d, r) :: rest
      | [] => [(is_digit c, String c EmptyString)]
      end
  end.

(** [int(r)] for a run of digits. *)
Definition int_of_digits (r : string) : N :=
  foldl (fun acc c => (10 * acc + (pystr.code c - 48))%N) 0%N (pystr.chars r).

Definition to_component (x : bool * string) : component :=
  if x.1 then Int (int_of_digits x.2) else Str x.2.

(** [sep_inserter]: no two numbers are adjacent in [runs], so only the
    front can need a separator. *)
Definition sep_inserter (cs : list component) : list component :=
  match cs with
  | Int n :: _ => Str "" :: cs
  | _ => cs
  end.

Definition natsort_key (s : string) : list component :=
  sep_inserter (to_component <$> runs s).

(** Python's order on tuples whose components are [str] or [int]; in a
    key the two kinds alternate from a [str], so a [str] never meets an
    [int] at the same index. *)
Definition compare_component (a b : component) : comparison :=
  match a, b with
  | Str s, Str t => String.compare s t
  | Int m, Int n => N.compare m n
  | Str _, Int _ => Lt
  | Int _, Str _ => Gt
  end.

Fixpoint compare_tuple (k1 k2 : list component) : comparison :=
  match k1, k2 with
  | [], [] => Eq
  | [], _ :: _ => Lt
  | _ :: _, [] => Gt
  | a :: k1', b :: k2' =>
      match compare_component a b with
      | Eq => compare_tuple k1' k2'
      | c => c
      end
  end.

(** [key(y) < key(x)] *)
Definition key_lt (y x : string) : bool :=
  match compare_tuple (natsort_key y) (natsort_key x) with
  | Lt => true
  | _ => false
  end.

(** A stable sort: [x], which stood before the elements of [l], goes in
    front of the first element that is not smaller than it. *)
Fixpoint insert (x : string) (l : list string) : list string :=
  match l with
  | [] => [x]
  | y :: t => if key_lt y x then y :: insert x t else x :: y :: t
  end.

Definition natsorted (xs : list string) : list string := foldr insert [] xs.

End natsort.

(** [sort_files]: [self.selected_files = natsorted(self.selected_files)]. *)
Definition sort_files (selected_files : list string) : list string :=
  match selected_files with
  | [] => []
  | _ => natsort.natsorted selected_files
  end.

(** ** Vocabulary of the statements *)

Section vocabulary.
Context `{OsPath}.
Import pystr.

(** What one path contributes to the output of the concatenator. *)
Definition emitted (w : World) (p : string) : string :=
  match open_read w p with
  | inr text =>
      "--- File: " +:+ basename p +:+ " ---" +:+ nl +:+ nl +:+ text +:+ nl +:+ nl
  | inl _ => ""
  end.

(** The console line for a path that cannot be read, if any. *)
Definition complaint (w : World) (p : string) : list string :=
  match open_read w p with
  | inr _ => []
  | inl e => ["Error reading " +:+ p +:+ ": " +:+ str e]
  end.

(** The world when the loop over the paths is over: one console line for
    each path that could not be read. *)
Definition reported (w : World) (paths : list string) : World :=
  {| fs := fs w; stdout := stdout w ++ flat_map (complaint w) paths |}.

(** The end of a run: the single write of [text] and its outcome. *)
Definition finish (w1 : World) (output_path text : string)
  : World * (exception + unit) :=
  match open_write w1 output_path text with
  | inr w2 => (print w2 ("Concatenated file saved to: " +:+ output_path), inr ())
  | inl e =>
      (w1, inl (IOError ("Error writing to " +:+ output_path +:+ ": " +:+ str e)))
  end.

(** A line of the manifest that is neither blank nor a comment. *)
Definition effective (raw : string) : bool :=
  let line := strip raw in
  negb (is_empty line) && negb (startswith "#" line || startswith ";" line).

(** The line as [import_line] holds it after quote stripping and expansion. *)
Definition prepared (raw : string) : string :=
  expandvars (expanduser (unquote (strip raw))).

(** The resolved candidate of a line. *)
Definition resolved (base_dir raw : string) : string :=
  let line := prepared raw in
  abspath (normpath (if negb (isabs line) then join base_dir line else line)).

Definition rejected (base_dir raw : string) : bool :=
  effective raw && negb (is_allowed (resolved base_dir raw)).

Definition missing (base_dir raw : string) : bool :=
  effective raw && is_allowed (resolved base_dir raw)
  && negb (isfile (resolved base_dir raw)).

Definition present (base_dir raw : string) : bool :=
  effective raw && is_allowed (resolved base_dir raw)
  && isfile (resolved base_dir raw).

(** The four dispositions of a line. *)
Inductive disposition :=
  | Added (candidate : string)
  | AlreadyPresent (candidate : string)
  | NotFound (line : string)
  | SkippedNotAllowed (line : string).

Definition added_of (ds : list disposition) : list string :=
  omap (fun d => match d with Added c => Some c | _ => None end) ds.
Definition already_of (ds : list disposition) : list string :=
  omap (fun d => match d with AlreadyPresent c => Some c | _ => None end) ds.
Definition not_found_of (ds : list disposition) : list string :=
  omap (fun d => match d with NotFound l => Some l | _ => None end) ds.
Definition skipped_of (ds : list disposition) : list string :=
  omap (fun d => match d with SkippedNotAllowed l => Some l | _ => None end) ds.

(** The report that holds the entries [ds], each in its sequence. *)
Definition report_of (ds : list disposition) : report :=
  {| added_paths := added_of ds;
     already_present := already_of ds;
     not_found := not_found_of ds;
     skipped_not_allowed := skipped_of ds |}.

(** [d] is an entry made for the line [raw]. *)
Definition entry_for (base_dir raw : string) (d : disposition) : Prop :=
  match d with
  | Added c | AlreadyPresent c => c = resolved base_dir raw
  | NotFound l | SkippedNotAllowed l => l = prepared raw
  end.

(** The dialogs of a call whose decoding loop ended with [last_err] and
    [lines]. *)
Definition decode_dialogs (last_err : option exception) (lines : list string)
  : list dialog :=
  match last_err, lines with
  | Some err, [] =>
      [showerror "Error"
         ("Could not decode list file using common encodings. Last error: "
          +:+ str err)]
  | _, _ => []
  end.

(** The part of [import_line] that decides between [added_paths] and
    [already_present], on the pair of the two lists. *)
Definition reconcile (existing : gset string) (st : list string * list string)
    (candidate : string) : list string * list string :=
  let n := norm candidate in
  if bool_decide (n ∈ existing)
     || existsb (fun p => bool_decide (norm p = n)) st.1
  then (st.1, st.2 ++ [candidate])
  else (st.1 ++ [candidate], st.2).

End vocabulary.

(** Vocabulary for the natural sort. *)

(** [str.isascii]: every code point is below 128.  On such text the
    library's normalization (NFD) changes nothing and the digits are the
    ten characters 0-9, so [natsort.natsort_key] is the key of the library;
    the statements about the order of keys are made for such text. *)
Definition isascii (s : string) : bool :=
  forallb (fun c => (pystr.code c <? 128)%N) (pystr.chars s).

Definition has_digit (s : string) : bool :=
  existsb natsort.is_digit (pystr.chars s).

(** The text of a key: its [str] components joined. *)
Fixpoint key_text (k : list natsort.component) : string :=
  match k with
  | [] => ""
  | natsort.Str r :: k' => r +:+ key_text k'
  | natsort.Int _ :: k' => key_text k'
  end.

(** The characters of a string that are not digits, in their order. *)
Fixpoint non_digits (s : string) : string :=
  match s with
  | EmptyString => EmptyString
  | String c t =>
      if natsort.is_digit c then non_digits t else String c (non_digits t)
  end.

(** The digit flags of neighbouring runs differ. *)
Fixpoint runs_alternate (l : list (bool * string)) : bool :=
  match l with
  | (d1, _) :: ((d2, _) :: _) as t => negb (Bool.eqb d1 d2) && runs_alternate t
  | _ => true
  end.

(** The components of a key are [str] and [int] in turn. *)
Fixpoint alternates (want_str : bool) (k : list natsort.component) : bool :=
  match k with
  | [] => true
  | natsort.Str _ :: k' => want_str && alternates false k'
  | natsort.Int _ :: k' => negb want_str && alternates true k'
  end.

(** ** A POSIX host for the examples *)

Module demo.
Import pystr.

Definition ps : posixpath.process :=
  {| posixpath.cwd := "/work";
     posixpath.environ := {[ "HOME" := "/home/u" ]};
     posixpath.login := "u";
     posixpath.passwd := {[ "u" := "/home/u" ]} |}.

Definition world : World :=
  {| fs := {[ "a.txt" := Regular true (Some "A");
              "b.txt" := Regular true (Some "B");
              "c.md" := Regular true (Some "C");
              "locked.txt" := Regular false (Some "L");
              "outdir" := Directory;
              "/proj" := Directory;
              "/proj/docs/readme.md" := Regular true (Some "R");
              "/proj/list.txt" := Regular true (Some "") ]};
     stdout := [] |}.

Definition isfile (p : string) : bool :=
  match fs world !! p with
  | Some (Regular _ _) => true
  | _ => false
  end.

Definition os : OsPath := posix_OsPath ps isfile.

(** Five lines: a comment, a blank line, a relative path to an existing
    allowed file, a missing file, and a quoted name of a type that is not
    allowed. *)
Definition manifest : list string :=
  [ "# files" +:+ nl;
    nl;
    "docs/readme.md" +:+ nl;
    "missing.txt" +:+ nl;
    dquote +:+ "image.png" +:+ dquote +:+ nl ].

(** Three lines: a quoted name, a path under the home directory and a
    path under an environment variable. *)
Definition manifest2 : list string :=
  [ dquote +:+ "image.png" +:+ dquote +:+ nl;
    "~/notes.txt" +:+ nl;
    "$HOME/pic.png" +:+ nl ].

(** A line that starts with the byte 0x81, as latin-1 decodes it. *)
Definition binary : list string :=
  [ String (ascii_of_nat 129) "notes.txt" +:+ nl ].

(** The locale of the host is UTF-8.  The two list files are ASCII and
    decode under every encoding of the chain.  ["/proj/bad.bin"] holds the
    byte 0x81: UTF-8 and cp1252 refuse it, and latin-1, which has a
    character for every byte, decodes it. *)
Definition io : ListFileIO :=
  {| getpreferredencoding := "UTF-8";
     open_readlines path enc :=
       if String.eqb path "/proj/list.txt" then inr manifest
       else if String.eqb path "/proj/list2.txt" then inr manifest2
       else if String.eqb path "/proj/bad.bin" then
         if String.eqb enc "latin-1" then inr binary
         else if String.eqb enc "cp1252" then
           inl (UnicodeDecodeError
                  "'charmap' codec can't decode byte 0x81 in position 0: character maps to <undefined>")
         else
           inl (UnicodeDecodeError
                  "'utf-8' codec can't decode byte 0x81 in position 0: invalid start byte")
       else inl (FileNotFoundError
                   ("[Errno 2] No such file or directory: '" +:+ path +:+ "'")) |}.

End demo.

(** ** Vocabulary of the further properties *)

(** [key(x) <= key(y)] *)
Definition key_le (x y : string) : bool := negb (natsort.key_lt y x).

(** Every element of [l] has a key that is at most the key of the next. *)
Fixpoint in_key_order (l : list string) : bool :=
  match l with
  | x :: (y :: _) as t => key_le x y && in_key_order t
  | _ => true
  end.

Definition all_digits (s : string) : bool :=
  forallb natsort.is_digit (pystr.chars s).

(** Every name of the list is ASCII text. *)
Definition ascii_names (l : list string) : bool := forallb isascii l.

(** The attempt to read the list file under one encoding failed to decode. *)
Definition decode_failure (x : exception + list string) : Prop :=
  exists m, x = inl (UnicodeDecodeError m).

(** ** The folder mode *)

(** [os.path.isdir] and [os.listdir]. *)
Class OsDir := {
  isdir : string -> bool;
  listdir : string -> exception + list string
}.

Section folder.
Context `{OsPath} `{OsDir}.

(** The names of the listing that the folder mode keeps. *)
Definition kept (folder_path f : string) : bool :=
  is_allowed f && isfile (join folder_path f).

Definition concatenate_text_files (w : World) (folder_path output_path : string)
  : World * (exception + unit) :=
  if negb (isdir folder_path) then
    (w, inl (ValueError ("Folder does not exist or is not a directory: "
                         +:+ folder_path)))
  else
    match listdir folder_path with
    | inl e => (w, inl e)
    | inr names =>
        let files := List.filter (kept folder_path) names in
        let files := natsort.natsorted files in
        let file_paths := join folder_path <$> files in
        concatenate_file_list w file_paths output_path
    end.

End folder.

(** ** The window

    The state of [TextFileConcatenatorGUI] and its methods.  A method that
    opens a file dialog takes the answer of the dialog as its argument. *)

Module tk.

(** A [tkinter.Listbox]: its items, each with whether it is selected.  An
    inserted item is not selected; the other items keep their selection
    when items are inserted or deleted. *)
Abbreviation listbox := (list (string * bool)).

(** [lb.insert(tk.END, item)] *)
Definition insert_END (lb : listbox) (item : string) : listbox :=
  lb ++ [(item, false)].

(** [lb.insert(index, item)]: at the end when [index] is past it. *)
Definition insert (lb : listbox) (index : nat) (item : string) : listbox :=
  take index lb ++ (item, false) :: drop index lb.

(** [lb.delete(index)]: nothing when there is no such item. *)
Definition delete (lb : listbox) (index : nat) : listbox :=
  base.delete index lb.

(** [lb.get(index)]: the empty string when there is no such item. *)
Definition get (lb : listbox) (index : nat) : string :=
  match lb !! index with
  | Some (item, _) => item
  | None => ""
  end.

(** [lb.curselection()]: the indices of the selected items, ascending. *)
Fixpoint curselection_from (i : nat) (lb : listbox) : list nat :=
  match lb with
  | [] => []
  | (_, selected) :: t =>
      if selected then i :: curselection_from (S i) t
      else curselection_from (S i) t
  end.

Definition curselection (lb : listbox) : list nat := curselection_from 0 lb.

(** [lb.selection_clear(index)], [lb.selection_set(index)] and
    [lb.selection_clear(0, tk.END)] *)
Definition selection_clear (lb : listbox) (index : nat) : listbox :=
  alter (fun it => (it.1, false)) index lb.

Definition selection_set (lb : listbox) (index : nat) : listbox :=
  alter (fun it => (it.1, true)) index lb.

Definition selection_clear_all (lb : listbox) : listbox :=
  (fun it => (it.1, false)) <$> lb.

End tk.

(** Python lists, at indices that are not negative: [None] is [IndexError]. *)
Module pylist.

(** [del l[i]] *)
Definition del (l : list string) (i : nat) : option (list string) :=
  match l !! i with
  | Some _ => Some (base.delete i l)
  | None => None
  end.

(** [l[i], l[j] = l[j], l[i]] *)
Definition swap (l : list string) (i j : nat) : option (list string) :=
  match l !! j, l !! i with
  | Some x, Some y => Some (<[j := y]> (<[i := x]> l))
  | _, _ => None
  end.

End pylist.

(** [str(n)] for a count. *)
Definition str_of_nat (n : nat) : string :=
  DecimalString.NilZero.string_of_uint (Nat.to_uint n).

Module gui.

Record window := {
  selected_files : list string;
  file_listbox : tk.listbox;
  status_label : string;          (* the text of the label *)
  mode_var : string;
  folder_entry : string;
  output_entry : string;
  folder_frame_packed : bool;
  files_frame_packed : bool;
  status_label_packed : bool;
  dialogs : list dialog           (* the message boxes shown so far *)
}.

Definition with_selection (st : window) (sf : list string) (lb : tk.listbox)
  : window :=
  {| selected_files := sf; file_listbox := lb;
     status_label := status_label st; mode_var := mode_var st;
     folder_entry := folder_entry st; output_entry := output_entry st;
     folder_frame_packed := folder_frame_packed st;
     files_frame_packed := files_frame_packed st;
     status_label_packed := status_label_packed st;
     dialogs := dialogs st |}.

Definition with_status (st : window) (text : string) : window :=
  {| selected_files := selected_files st; file_listbox := file_listbox st;
     status_label := text; mode_var := mode_var st;
     folder_entry := folder_entry st; output_entry := output_entry st;
     folder_frame_packed := folder_frame_packed st;
     files_frame_packed := files_frame_packed st;
     status_label_packed := status_label_packed st;
     dialogs := dialogs st |}.

Definition with_packed (st : window) (folder files status : bool) : window :=
  {| selected_files := selected_files st; file_listbox := file_listbox st;
     status_label := status_label st; mode_var := mode_var st;
     folder_entry := folder_entry st; output_entry := output_entry st;
     folder_frame_packed := folder;
     files_frame_packed := files;
     status_label_packed := status;
     dialogs := dialogs st |}.

Definition with_folder (st : window) (folder : string) : window :=
  {| selected_files := selected_files st; file_listbox := file_listbox st;
     status_label := status_label st; mode_var := mode_var st;
     folder_entry := folder; output_entry := output_entry st;
     folder_frame_packed := folder_frame_packed st;
     files_frame_packed := files_frame_packed st;
     status_label_packed := status_label_packed st;
     dialogs := dialogs st |}.

Definition show (st : window) (ds : list dialog) : window :=
  {| selected_files := selected_files st; file_listbox := file_listbox st;
     status_label := status_label st; mode_var := mode_var st;
     folder_entry := folder_entry st; output_entry := output_entry st;
     folder_frame_packed := folder_frame_packed st;
     files_frame_packed := files_frame_packed st;
     status_label_packed := status_label_packed st;
     dialogs := dialogs st ++ ds |}.

(** The window when [__init__] returns: [setup_ui] ends with
    [on_mode_change] in folder mode. *)
Definition init : window :=
  {| selected_files := []; file_listbox := [];
     status_label := ""; mode_var := "folder";
     folder_entry := ""; output_entry := "concatenated.txt";
     folder_frame_packed := true;
     files_frame_packed := false;
     status_label_packed := false;
     dialogs := [] |}.

Section methods.
Context `{OsPath} `{ListFileIO} `{OsDir}.
Import pystr.

Definition count_text (count : nat) : string :=
  match count with
  | 0%nat => "No files selected"
  | 1%nat => "1 file selected"
  | _ => str_of_nat count +:+ " files selected"
  end.

Definition update_file_count (st : window) : window :=
  with_status st (count_text (length (selected_files st))).

Definition on_mode_change (st : window) : window :=
  if String.eqb (mode_var st) "folder" then
    with_packed (with_selection st [] []) true false false
  else
    update_file_count (with_packed st false true true).

(** [folder] is the answer of [filedialog.askdirectory()]. *)
Definition browse_folder (folder : string) (st : window) : window :=
  if is_empty folder then st else with_folder st folder.

(** The body of the loop of [add_files], on the selection, the listbox and
    the counter [skipped]. *)
Definition add_one (acc : list string * tk.listbox * nat) (file_path : string)
  : list string * tk.listbox * nat :=
  let '(sf, lb, skipped) := acc in
  if negb (is_allowed file_path) then (sf, lb, S skipped)
  else if bool_decide (file_path ∈ sf) then (sf, lb, skipped)
  else (sf ++ [file_path], tk.insert_END lb file_path, skipped).

(** [files] is the answer of [filedialog.askopenfilenames(...)]. *)
Definition add_files (files : list string) (st : window) : window :=
  let '(sf, lb, skipped) :=
    foldl add_one (selected_files st, file_listbox st, 0%nat) files in
  let st := update_file_count (with_selection st sf lb) in
  match skipped with
  | 0%nat => st
  | _ =>
      show st [showinfo "Some files skipped"
                 ("Skipped " +:+ str_of_nat skipped
                  +:+ " file(s) not in allowed types.")]
  end.

(** One round of the loop that builds [details_lines]. *)
Definition details_of (label : string) (items : list string) : list string :=
  match items with
  | [] => []
  | _ =>
      let preview := take 5 items in
      let more := (length items - length preview)%nat in
      [label +:+ " examples:" +:+ nl +:+ "  - "
       +:+ str_join (nl +:+ "  - ") preview]
      ++ (if (0 <? more)%nat
          then ["  ... and " +:+ str_of_nat more +:+ " more"] else [])
  end.

Definition import_summary (result : report) : string :=
  let summary :=
    "Added: " +:+ str_of_nat (length (added_paths result)) +:+ nl
    +:+ "Already present: " +:+ str_of_nat (length (already_present result)) +:+ nl
    +:+ "Not found: " +:+ str_of_nat (length (not_found result)) +:+ nl
    +:+ "Skipped (not allowed type): "
    +:+ str_of_nat (length (skipped_not_allowed result)) in
  let details_lines :=
    details_of "Not found" (not_found result)
    ++ details_of "Skipped (not allowed type)" (skipped_not_allowed result) in
  let details := str_join (nl +:+ nl) details_lines in
  if is_empty details then summary else summary +:+ nl +:+ nl +:+ details.

Definition append_file (st : window) (p : string) : window :=
  with_selection st (selected_files st ++ [p]) (tk.insert_END (file_listbox st) p).

(** [list_path] is the answer of [filedialog.askopenfilename(...)]; the
    result is the exception that [parse_file_list] lets through, or the
    window when the method returns. *)
Definition add_files_from_list (list_path : string) (st : window)
  : exception + window :=
  if is_empty list_path then inr st
  else
    match parse_file_list (selected_files st) list_path with
    | (_, inl e) => inl e
    | (shown, inr result) =>
        let st := show st shown in
        let st := foldl append_file st (added_paths result) in
        let st := update_file_count st in
        inr (show st [showinfo "Import summary" (import_summary result)])
    end.

(** The body of the loop of [remove_selected]. *)
Definition remove_one (acc : option (list string * tk.listbox)) (index : nat)
  : option (list string * tk.listbox) :=
  match acc with
  | None => None
  | Some (sf, lb) =>
      let lb := tk.delete lb index in
      match pylist.del sf index with
      | Some sf => Some (sf, lb)
      | None => None
      end
  end.

Definition remove_selected (st : window) : option window :=
  let selected_indices := tk.curselection (file_listbox st) in
  match foldl remove_one (Some (selected_files st, file_listbox st))
          (rev selected_indices) with
  | Some (sf, lb) => Some (update_file_count (with_selection st sf lb))
  | None => None
  end.

Definition clear_all (st : window) : window :=
  update_file_count (with_selection st [] []).

(** The body of the loop of [move_up]; the guard of the method keeps
    [index] above 0. *)
Definition up_one (acc : option (list string * tk.listbox)) (index : nat)
  : option (list string * tk.listbox) :=
  match acc with
  | None => None
  | Some (sf, lb) =>
      match pylist.swap sf index (index - 1) with
      | None => None
      | Some sf =>
          let item := tk.get lb index in
          let lb := tk.delete lb index in
          let lb := tk.insert lb (index - 1) item in
          let lb := tk.selection_clear lb index in
          let lb := tk.selection_set lb (index - 1) in
          Some (sf, lb)
      end
  end.

Definition move_up (st : window) : option window :=
  let selected_indices := tk.curselection (file_listbox st) in
  match selected_indices with
  | [] => Some st
  | 0%nat :: _ => Some st
  | _ =>
      match foldl up_one (Some (selected_files st, file_listbox st))
              selected_indices with
      | Some (sf, lb) => Some (with_selection st sf lb)
      | None => None
      end
  end.

(** The body of the loop of [move_down]. *)
Definition down_one (acc : option (list string * tk.listbox)) (index : nat)
  : option (list string * tk.listbox) :=
  match acc with
  | None => None
  | Some (sf, lb) =>
      match pylist.swap sf index (index + 1) with
      | None => None
      | Some sf =>
          let item := tk.get lb index in
          let lb := tk.delete lb index in
          let lb := tk.insert lb (index + 1) item in
          let lb := tk.selection_clear lb index in
          let lb := tk.selection_set lb (index + 1) in
          Some (sf, lb)
      end
  end.

Definition move_down (st : window) : option window :=
  let selected_indices := tk.curselection (file_listbox st) in
  match last selected_indices with
  | None => Some st
  | Some final =>
      if Z.of_nat final =? Z.of_nat (length (selected_files st)) - 1 then Some st
      else
        match foldl down_one (Some (selected_files st, file_listbox st))
                (rev selected_indices) with
        | Some (sf, lb) => Some (with_selection st sf lb)
        | None => None
        end
  end.

Definition sort_files (st : window) : window :=
  match selected_files st with
  | [] => st
  | _ =>
      let sf := natsort.natsorted (selected_files st) in
      let lb := foldl tk.insert_END [] sf in
      let lb := tk.selection_clear_all lb in
      with_selection st sf lb
  end.

Definition run_concatenation (w : World) (st : window) : World * window :=
  let output_path :=
    if is_empty (output_entry st) then "concatenated.txt" else output_entry st in
  let success :=
    showinfo "Success"
      ("Files concatenated successfully to:" +:+ nl +:+ output_path) in
  if String.eqb (mode_var st) "folder" then
    let folder_path := folder_entry st in
    if is_empty folder_path then
      (w, show st [showerror "Error" "Please select a folder."])
    else
      match concatenate_text_files w folder_path output_path with
      | (w', inr _) => (w', show st [success])
      | (w', inl e) => (w', show st [showerror "Error" (str e)])
      end
  else
    match selected_files st with
    | [] => (w, show st [showerror "Error" "Please select files to concatenate."])
    | _ =>
        match concatenate_file_list w (selected_files st) output_path with
        | (w', inr _) => (w', show st [success])
        | (w', inl e) => (w', show st [showerror "Error" (str e)])
        end
    end.

End methods.

(** What the methods keep: the listbox shows the selection, no path is in
    the selection twice, and a visible status label tells its size. *)
Definition consistent (st : window) : Prop :=
  (file_listbox st).*1 = selected_files st
  /\ NoDup (selected_files st)
  /\ (status_label_packed st = true ->
      status_label st = count_text (length (selected_files st))).

End gui.

(** Vocabulary of the moves in the listbox. *)

(** What [move_up] makes of a listbox whose first item [y] is not selected
    and is followed by the items [t]: every selected item moves one place
    up, so an item that is not selected sinks below the run of selected
    items that follows it. *)
Fixpoint sink (y : string) (t : tk.listbox) : tk.listbox :=
  match t with
  | [] => [(y, false)]
  | (x, true) :: t' => (x, true) :: sink y t'
  | (z, false) :: t' => (y, false) :: sink z t'
  end.

(** The listbox after one round of the loop of [move_up], and of
    [move_down]. *)
Definition raise_item (lb : tk.listbox) (index : nat) : tk.listbox :=
  tk.selection_set
    (tk.selection_clear
       (tk.insert (tk.delete lb index) (index - 1) (tk.get lb index)) index)
    (index - 1).

Definition lower_item (lb : tk.listbox) (index : nat) : tk.listbox :=
  tk.selection_set
    (tk.selection_clear
       (tk.insert (tk.delete lb index) (index + 1) (tk.get lb index)) index)
    (index + 1).

(** ** The command line *)

(** How the script ends: with an exit status, or in the main loop of the
    window. *)
Inductive ending :=
  | Exit (status : Z)
  | Gui.

Section command_line.
Context `{OsPath} `{OsDir}.

(** The block under [if __name__ == "__main__"]; [argv] is [sys.argv]. *)
Definition main (argv : list string) (w : World) : World * ending :=
  match argv with
  | _ :: folder_path :: rest =>
      let output_path :=
        match rest with
        | output_path :: _ => output_path
        | [] => "concatenated.txt"
        end in
      match concatenate_text_files w folder_path output_path with
      | (w', inr _) => (w', Exit 0)
      | (w', inl e) => (print w' ("Error: " +:+ str e), Exit 1)
      end
  | _ => (w, Gui)
  end.

End command_line.

(** ** A second example host: a folder of files, and a window *)

Module demo_folder.
Import pystr.

Definition world : World :=
  {| fs := {[ "/data" := Directory;
              "/data/file10.txt" := Regular true (Some "ten");
              "/data/file2.txt" := Regular true (Some "two");
              "/data/notes.md" := Regular true (Some "notes");
              "/data/image.png" := Regular true None;
              "/data/sub.txt" := Directory;
              "/empty" := Directory ]};
     stdout := [] |}.

Definition isfile (p : string) : bool :=
  match fs world !! p with
  | Some (Regular _ _) => true
  | _ => false
  end.

Definition os : OsPath := posix_OsPath demo.ps isfile.

Definition dir : OsDir :=
  {| isdir p :=
       match fs world !! p with
       | Some Directory => true
       | _ => false
       end;
     listdir p :=
       if String.eqb p "/data" then
         inr ["notes.md"; "file10.txt"; "image.png"; "sub.txt"; "file2.txt"]
       else if String.eqb p "/empty" then inr []
       else inl (FileNotFoundError
                   ("[Errno 2] No such file or directory: '" +:+ p +:+ "'")) |}.

(** A window in files mode: five files, the second, third and fifth
    selected. *)
Definition window : gui.window :=
  {| gui.selected_files := ["a.txt"; "b.txt"; "c.md"; "d.txt"; "e.py"];
     gui.file_listbox :=
       [("a.txt", false); ("b.txt", true); ("c.md", true); ("d.txt", false);
        ("e.py", true)];
     gui.status_label := "5 files selected";
     gui.mode_var := "files";
     gui.folder_entry := "";
     gui.output_entry := "out.txt";
     gui.folder_frame_packed := false;
     gui.files_frame_packed := true;
     gui.status_label_packed := true;
     gui.dialogs := [] |}.

End demo_folder.

(** List files for the examples: two that differ in blank and comment
    lines only, and one that does not decode as UTF-8. *)
Module demo_lists.
Import pystr.

Definition plain : list string :=
  [ "docs/readme.md" +:+ nl; "missing.txt" +:+ nl ].

Definition commented : list string :=
  [ "; the documentation" +:+ nl; "docs/readme.md" +:+ nl; nl;
    "# not there yet" +:+ nl; "missing.txt" +:+ nl ].

Definition io : ListFileIO :=
  {| getpreferredencoding := "cp1250";
     open_readlines path enc :=
       if String.eqb path "/proj/plain.txt" then inr plain
       else if String.eqb path "/proj/commented.txt" then inr commented
       else if String.eqb path "/proj/legacy.txt" then
         if String.eqb enc "utf-8-sig"
         then inl (UnicodeDecodeError "'utf-8' codec can't decode byte 0xe9")
         else inr plain
       else inl (FileNotFoundError
                   ("[Errno 2] No such file or directory: '" +:+ path +:+ "'")) |}.

End demo_lists.

(** * Properties *)

(** ** Strings *)

Lemma app_cons (c : ascii) (s t : string) : String c s +:+ t = String c (s +:+ t).
Proof. reflexivity. Qed.

Lemma app_empty_r (s : string) : s +:+ "" = s.
Proof. induction s as [|c s IH]; [reflexivity|]. by rewrite app_cons, IH. Qed.

Lemma app_assoc_str (s t u : string) : (s +:+ t) +:+ u = s +:+ (t +:+ u).
Proof. induction s as [|c s IH]; [reflexivity|]. by rewrite !app_cons, IH. Qed.

Lemma concat_empty_cons (x : string) (xs : list string) :
  String.concat "" (x :: xs) = x +:+ String.concat "" xs.
Proof.
  destruct xs as [|y ys]; simpl.
  - by rewrite app_empty_r.
  - reflexivity.
Qed.

Lemma concat_empty_app (xs ys : list string) :
  String.concat "" (xs ++ ys) = String.concat "" xs +:+ String.concat "" ys.
Proof.
  induction xs as [|x xs IH]; [reflexivity|].
  rewrite <- app_comm_cons, !concat_empty_cons, IH.
  by rewrite app_assoc_str.
Qed.

Lemma string_compare_refl (s : string) : String.compare s s = Eq.
Proof.
  induction s as [|a s IH]; [done|]. simpl.
  unfold Ascii.compare. by rewrite N.compare_refl.
Qed.

Lemma string_compare_app_same (u s t : string) :
  String.compare (u +:+ s) (u +:+ t) = String.compare s t.
Proof.
  induction u as [|a u IH]; [done|]. rewrite !app_cons. simpl.
  unfold Ascii.compare. by rewrite N.compare_refl.
Qed.

(** ** The type classifier *)

(** C9: on a POSIX host the classifier accepts "LICENSE", "makefile" and
    "notes.MD" and rejects "image.png" and "archive.tar.gz"; of the latter
    only the final suffix ".gz" is looked up, and it is not in the allowlist. *)
Theorem is_allowed_examples (ps : posixpath.process) (isf : string -> bool) :
  @is_allowed (posix_OsPath ps isf) "LICENSE" = true
  /\ @is_allowed (posix_OsPath ps isf) "makefile" = true
  /\ @is_allowed (posix_OsPath ps isf) "notes.MD" = true
  /\ @is_allowed (posix_OsPath ps isf) "image.png" = false
  /\ @is_allowed (posix_OsPath ps isf) "archive.tar.gz" = false
  /\ @splitext (posix_OsPath ps isf) "archive.tar.gz" = ("archive.tar", ".gz")
  /\ mem ".gz" ALLOWED_EXTS = false.
Proof. repeat split; vm_compute; reflexivity. Qed.

(** ** The concatenator *)

Section concatenator_facts.
Context `{OsPath}.
Import pystr.

Lemma open_read_print (w : World) (line p : string) :
  open_read (print w line) p = open_read w p.
Proof. reflexivity. Qed.

Lemma open_read_fs (w w' : World) (p : string) :
  fs w' = fs w -> open_read w' p = open_read w p.
Proof. unfold open_read. by intros ->. Qed.

(** The loop in closed form: the console gets the complaints, the list
    [output_content] the pieces of the readable files, in order. *)
Lemma read_loop (paths : list string) (w0 w : World) (acc : list string) :
  fs w = fs w0 ->
  exists w1 out,
    foldl read_one (w, acc) paths = (w1, out)
    /\ fs w1 = fs w0
    /\ stdout w1 = stdout w ++ flat_map (complaint w0) paths
    /\ str_join "" out = str_join "" acc +:+ String.concat "" (emitted w0 <$> paths).
Proof.
  revert w acc. induction paths as [|p paths IH]; intros w acc Hfs.
  - exists w, acc. simpl. rewrite app_nil_r, app_empty_r. done.
  - simpl foldl. rewrite fmap_cons, concat_empty_cons. simpl flat_map.
    unfold complaint at 1, emitted at 1.
    rewrite (open_read_fs w0 w p Hfs).
    destruct (open_read w0 p) as [e|text] eqn:Hr.
    + destruct (IH (print w ("Error reading " +:+ p +:+ ": " +:+ str e)) acc)
        as (w1 & out & Hf & Hfs1 & Hout & Hj); [done|].
      exists w1, out. split; [done|]. split; [done|]. split.
      * rewrite Hout. simpl. by rewrite <- app_assoc.
      * rewrite Hj. done.
    + destruct (IH w
        (acc ++ ["--- File: " +:+ basename p +:+ " ---" +:+ nl +:+ nl;
                 text; nl +:+ nl])) as (w1 & out & Hf & Hfs1 & Hout & Hj);
        [done|].
      exists w1, out. split; [done|]. split; [done|]. split.
      * rewrite Hout. done.
      * rewrite Hj. unfold str_join. rewrite concat_empty_app.
        simpl String.concat. rewrite !app_assoc_str. done.
Qed.

Lemma read_loop_reported (paths : list string) (w : World) :
  exists out,
    foldl read_one (w, []) paths = (reported w paths, out)
    /\ str_join "" out = String.concat "" (emitted w <$> paths).
Proof.
  destruct (read_loop paths w w [] eq_refl) as (w1 & out & Hf & Hfs & Hout & Hj).
  exists out. split; [|done].
  rewrite Hf. f_equal. destruct w1 as [f1 o1]. unfold reported.
  simpl in *. by subst.
Qed.

(** The whole call on a list that is not empty. *)
Lemma concatenate_closed_form (w : World) (paths : list string) (output_path : string) :
  paths <> [] ->
  concatenate_file_list w paths output_path
  = finish (reported w paths) output_path (String.concat "" (emitted w <$> paths)).
Proof.
  intros Hne. unfold concatenate_file_list.
  destruct paths as [|p paths]; [done|].
  destruct (read_loop_reported (p :: paths) w) as (out & -> & ->).
  reflexivity.
Qed.

End concatenator_facts.

Section concatenator_claims.
Context `{OsPath}.
Import pystr.

Lemma emitted_unreadable (w : World) (p : string) (e : exception) :
  open_read w p = inl e -> emitted w p = "".
Proof. unfold emitted. by intros ->. Qed.

Lemma finish_written (w1 w' : World) (output_path text : string) :
  finish w1 output_path text = (w', inr ()) ->
  fs w' !! output_path = Some (Regular true (Some text)).
Proof.
  unfold finish, open_write.
  destruct (fs w1 !! output_path) as [[|[] u]|]; intros [= <-];
    simpl; apply lookup_insert_eq.
Qed.

(** C1: for every list of paths the text handed to the one write is, for
    each path in list order, the header line [--- File: <basename> ---], a
    blank line, the text of the file and two newlines if the file could be
    read, and nothing otherwise (the empty list is refused before any
    read); when the call returns, the output file holds exactly that
    text. *)
Theorem concatenate_file_list_emits (w : World) (paths : list string)
    (output_path : string) :
  let text := String.concat "" (emitted w <$> paths) in
  concatenate_file_list w paths output_path
  = match paths with
    | [] => (w, inl (ValueError "No files to concatenate."))
    | _ => finish (reported w paths) output_path text
    end
  /\ (forall w', concatenate_file_list w paths output_path = (w', inr ()) ->
                 fs w' !! output_path = Some (Regular true (Some text))).
Proof.
  intros text. destruct paths as [|p paths].
  - split; [reflexivity|]. intros w' [=].
  - split.
    + by apply concatenate_closed_form.
    + intros w'. rewrite concatenate_closed_form by done. apply finish_written.
Qed.

(** C7: on the empty list the call raises [ValueError] with the message
    "No files to concatenate." and leaves the world, so also the output
    path, as it was: nothing is written and nothing is printed. *)
Theorem concatenate_file_list_empty (w : World) (output_path : string) :
  concatenate_file_list w [] output_path
  = (w, inl (ValueError "No files to concatenate.")).
Proof. reflexivity. Qed.

(** C8: a path that cannot be read does not end the run.  Its failure is
    printed, and the call ends as the single write of the pieces of the
    other paths, in their order, ends. *)
Theorem read_failure_is_skipped (w : World) (before after : list string)
    (bad output_path : string) (e : exception) :
  open_read w bad = inl e ->
  let run := concatenate_file_list w (before ++ bad :: after) output_path in
  ("Error reading " +:+ bad +:+ ": " +:+ str e) ∈ stdout run.1
  /\ run = finish (reported w (before ++ bad :: after)) output_path
             (String.concat "" (emitted w <$> (before ++ after))).
Proof.
  intros Hbad run.
  assert (Hrun : run = finish (reported w (before ++ bad :: after)) output_path
             (String.concat "" (emitted w <$> (before ++ after)))).
  { unfold run. rewrite concatenate_closed_form by (by destruct before).
    f_equal. rewrite !fmap_app, fmap_cons, !concat_empty_app, concat_empty_cons.
    by rewrite (emitted_unreadable w bad e Hbad). }
  split; [|done].
  assert (Hin : ("Error reading " +:+ bad +:+ ": " +:+ str e)
                  ∈ stdout (reported w (before ++ bad :: after))).
  { unfold reported. simpl. rewrite flat_map_app. simpl.
    unfold complaint at 2. rewrite Hbad.
    rewrite !elem_of_app. right. right. left. apply list_elem_of_here. }
  rewrite Hrun. unfold finish.
  destruct (open_write _ _ _) as [e'|w2] eqn:Hw; simpl; [done|].
  unfold open_write in Hw.
  destruct (fs _ !! output_path) as [[|[] u]|]; simplify_eq; simpl;
    rewrite elem_of_app; by left.
Qed.

(** C10, amended: when no path of a list that is not empty can be read,
    the call ends as the write of the empty text ends: if that write
    succeeds the call returns and the output file is empty, and if it
    fails the call raises [IOError]. *)
Theorem all_unreadable_writes_empty (w : World) (paths : list string)
    (output_path : string) :
  paths <> [] ->
  (forall p, p ∈ paths -> exists e, open_read w p = inl e) ->
  let run := concatenate_file_list w paths output_path in
  run = finish (reported w paths) output_path ""
  /\ (forall w2, open_write w output_path "" = inr w2 ->
                 run.2 = inr ()
                 /\ fs run.1 !! output_path = Some (Regular true (Some "")))
  /\ (forall e, open_write w output_path "" = inl e ->
                run.2 = inl (IOError ("Error writing to " +:+ output_path
                                      +:+ ": " +:+ str e))
                /\ fs run.1 = fs w).
Proof.
  intros Hne Hall run.
  assert (Htext : String.concat "" (emitted w <$> paths) = "").
  { clear Hne run. induction paths as [|p paths IH]; [done|].
    rewrite fmap_cons, concat_empty_cons.
    destruct (Hall p) as [e He]; [by left|].
    rewrite (emitted_unreadable w p e He), IH; [done|].
    intros q Hq. apply Hall. by right. }
  assert (Hrun : run = finish (reported w paths) output_path "").
  { unfold run. rewrite concatenate_closed_form by done. by rewrite Htext. }
  assert (Hw : forall t, open_write (reported w paths) output_path t
               = match open_write w output_path t with
                 | inr w2 => inr {| fs := fs w2; stdout := stdout (reported w paths) |}
                 | inl e' => inl e'
                 end).
  { intros t. unfold open_write. simpl.
    by destruct (fs w !! output_path) as [[|[] u]|]. }
  split; [done|]. split.
  - intros w2 Hw2. rewrite Hrun. unfold finish. rewrite Hw, Hw2. simpl.
    split; [done|].
    unfold open_write in Hw2.
    destruct (fs w !! output_path) as [[|[] u]|]; simplify_eq; simpl;
      apply lookup_insert_eq.
  - intros e He. rewrite Hrun. unfold finish. rewrite Hw, He. done.
Qed.

End concatenator_claims.

(** *** The concatenator on the example host *)

Lemma concatenate_file_list_emits_witness :
  ["a.txt"; "b.txt"; "c.md"] <> []
  /\ exists w',
       @concatenate_file_list demo.os demo.world ["a.txt"; "b.txt"; "c.md"] "out.txt"
       = (w', inr ())
       /\ fs w' !! "out.txt"
          = Some (Regular true (Some
              ("--- File: a.txt ---" +:+ pystr.nl +:+ pystr.nl +:+ "A"
               +:+ pystr.nl +:+ pystr.nl
               +:+ "--- File: b.txt ---" +:+ pystr.nl +:+ pystr.nl +:+ "B"
               +:+ pystr.nl +:+ pystr.nl
               +:+ "--- File: c.md ---" +:+ pystr.nl +:+ pystr.nl +:+ "C"
               +:+ pystr.nl +:+ pystr.nl))).
Proof.
  split; [discriminate|].
  destruct (@concatenate_file_list_emits demo.os demo.world
              ["a.txt"; "b.txt"; "c.md"] "out.txt") as [Hrun Hfile].
  eexists. split.
  - rewrite Hrun. vm_compute. reflexivity.
  - erewrite Hfile; [vm_compute; reflexivity|].
    rewrite Hrun. vm_compute. reflexivity.
Defined.

Lemma read_failure_is_skipped_witness :
  open_read demo.world "nope.txt"
  = inl (FileNotFoundError "[Errno 2] No such file or directory: 'nope.txt'")
  /\ "Error reading nope.txt: [Errno 2] No such file or directory: 'nope.txt'"
     ∈ stdout (@concatenate_file_list demo.os demo.world
                 ["a.txt"; "nope.txt"; "c.md"] "out.txt").1
  /\ (@concatenate_file_list demo.os demo.world
        ["a.txt"; "nope.txt"; "c.md"] "out.txt").2 = inr ()
  /\ fs (@concatenate_file_list demo.os demo.world
           ["a.txt"; "nope.txt"; "c.md"] "out.txt").1 !! "out.txt"
     = Some (Regular true (Some
         ("--- File: a.txt ---" +:+ pystr.nl +:+ pystr.nl +:+ "A"
          +:+ pystr.nl +:+ pystr.nl
          +:+ "--- File: c.md ---" +:+ pystr.nl +:+ pystr.nl +:+ "C"
          +:+ pystr.nl +:+ pystr.nl))).
Proof.
  split; [reflexivity|].
  destruct (@read_failure_is_skipped demo.os demo.world ["a.txt"] ["c.md"]
              "nope.txt" "out.txt"
              (FileNotFoundError "[Errno 2] No such file or directory: 'nope.txt'")
              eq_refl) as [Hin Hrun].
  split; [exact Hin|].
  simpl app in Hrun. rewrite Hrun.
  split; vm_compute; reflexivity.
Defined.

Lemma all_unreadable_writes_empty_witness :
  ["nope.txt"; "locked.txt"] <> []
  /\ (forall p, p ∈ ["nope.txt"; "locked.txt"] ->
                exists e, open_read demo.world p = inl e)
  /\ (@concatenate_file_list demo.os demo.world
        ["nope.txt"; "locked.txt"] "out.txt").2 = inr ()
  /\ fs (@concatenate_file_list demo.os demo.world
           ["nope.txt"; "locked.txt"] "out.txt").1 !! "out.txt"
     = Some (Regular true (Some "")).
Proof.
  assert (Hall : forall p, p ∈ ["nope.txt"; "locked.txt"] ->
                           exists e, open_read demo.world p = inl e).
  { intros p Hp. apply elem_of_cons in Hp as [->|Hp]; [by eexists|].
    apply elem_of_cons in Hp as [->|Hp]; [by eexists|].
    by apply elem_of_nil in Hp. }
  split; [discriminate|]. split; [exact Hall|].
  destruct (@all_unreadable_writes_empty demo.os demo.world
              ["nope.txt"; "locked.txt"] "out.txt" ltac:(discriminate) Hall)
    as (_ & Hok & _).
  exact (Hok _ eq_refl).
Defined.

(** C10 as stated fails where the output path cannot be written: every read
    fails and the call raises [IOError]. *)
Lemma all_unreadable_may_raise :
  ["nope.txt"] <> []
  /\ (forall p, p ∈ ["nope.txt"] -> exists e, open_read demo.world p = inl e)
  /\ (@concatenate_file_list demo.os demo.world ["nope.txt"] "outdir").2
     = inl (IOError "Error writing to outdir: [Errno 21] Is a directory: 'outdir'")
  /\ fs (@concatenate_file_list demo.os demo.world ["nope.txt"] "outdir").1 !! "outdir"
     = Some Directory.
Proof.
  split; [discriminate|]. split.
  - intros p Hp. apply elem_of_cons in Hp as [->|Hp]; [by eexists|].
    by apply elem_of_nil in Hp.
  - split; vm_compute; reflexivity.
Qed.

(** ** The list-file importer *)

Section importer_facts.
Context `{OsPath} `{ListFileIO}.
Import pystr.

(** The body of the loop by the vocabulary of the statements. *)
Lemma import_line_unfold (base_dir : string) (existing : gset string)
    (r : report) (raw : string) :
  import_line base_dir existing r raw =
  if negb (effective raw) then r
  else if negb (is_allowed (resolved base_dir raw)) then
    {| added_paths := added_paths r;
       already_present := already_present r;
       not_found := not_found r;
       skipped_not_allowed := skipped_not_allowed r ++ [prepared raw] |}
  else if negb (isfile (resolved base_dir raw)) then
    {| added_paths := added_paths r;
       already_present := already_present r;
       not_found := not_found r ++ [prepared raw];
       skipped_not_allowed := skipped_not_allowed r |}
  else
    let st := reconcile existing (added_paths r, already_present r)
                (resolved base_dir raw) in
    {| added_paths := st.1;
       already_present := st.2;
       not_found := not_found r;
       skipped_not_allowed := skipped_not_allowed r |}.
Proof.
  unfold import_line, effective, resolved, prepared, reconcile, norm.
  destruct (is_empty (strip raw)); [reflexivity|].
  destruct (startswith "#" (strip raw) || startswith ";" (strip raw));
    [reflexivity|].
  cbn [negb andb].
  destruct (negb (is_allowed _)); [reflexivity|].
  destruct (negb (isfile _)); [reflexivity|].
  cbn [fst snd].
  destruct (_ || _); reflexivity.
Qed.

(** The call returns a report exactly when the decoding loop lets no
    exception through, and the report is that of the loop over the lines
    it delivers (none when every encoding failed to decode). *)
Lemma parse_file_list_lines (selected_files : list string) (list_path : string)
    (lines : list string) (last_err : option exception) :
  read_lines list_path encodings None = inr (lines, last_err) ->
  parse_file_list selected_files list_path
  = (decode_dialogs last_err lines,
     inr (foldl (import_line (dirname list_path)
                   (list_to_set (norm <$> selected_files)))
            empty_report lines)).
Proof.
  intros Hr. unfold parse_file_list. rewrite Hr.
  by destruct last_err as [err|], lines as [|l lines].
Qed.

Lemma parse_file_list_returns (selected_files : list string) (list_path : string)
    (dlg : list dialog) (r : report) :
  parse_file_list selected_files list_path = (dlg, inr r) ->
  exists lines last_err,
    read_lines list_path encodings None = inr (lines, last_err)
    /\ dlg = decode_dialogs last_err lines
    /\ r = foldl (import_line (dirname list_path)
                    (list_to_set (norm <$> selected_files)))
             empty_report lines.
Proof.
  destruct (read_lines list_path encodings None) as [e|[lines last_err]] eqn:Hr.
  - unfold parse_file_list. rewrite Hr. intros [=].
  - rewrite (parse_file_list_lines _ _ _ _ Hr). intros [= <- <-]. eauto.
Qed.

Lemma report_of_app (ds1 ds2 : list disposition) :
  report_of (ds1 ++ ds2)
  = {| added_paths := added_of ds1 ++ added_of ds2;
       already_present := already_of ds1 ++ already_of ds2;
       not_found := not_found_of ds1 ++ not_found_of ds2;
       skipped_not_allowed := skipped_of ds1 ++ skipped_of ds2 |}.
Proof.
  unfold report_of, added_of, already_of, not_found_of, skipped_of.
  by rewrite !omap_app.
Qed.

(** One effective line makes one entry. *)
Lemma import_line_entry (base_dir : string) (existing : gset string)
    (ds : list disposition) (raw : string) :
  effective raw = true ->
  exists d, entry_for base_dir raw d
            /\ import_line base_dir existing (report_of ds) raw
               = report_of (ds ++ [d]).
Proof.
  intros Heff. rewrite import_line_unfold, Heff. cbn [negb].
  destruct (negb (is_allowed _)).
  { exists (SkippedNotAllowed (prepared raw)). split; [done|].
    rewrite report_of_app. simpl. by rewrite !app_nil_r. }
  destruct (negb (isfile _)).
  { exists (NotFound (prepared raw)). split; [done|].
    rewrite report_of_app. simpl. by rewrite !app_nil_r. }
  unfold reconcile. cbn [fst snd added_paths already_present report_of].
  destruct (_ || _).
  { exists (AlreadyPresent (resolved base_dir raw)). split; [done|].
    rewrite report_of_app. simpl. by rewrite !app_nil_r. }
  exists (Added (resolved base_dir raw)). split; [done|].
  rewrite report_of_app. simpl. by rewrite !app_nil_r.
Qed.

Lemma import_loop_entries (base_dir : string) (existing : gset string)
    (lines : list string) (ds0 : list disposition) :
  exists ds,
    Forall2 (entry_for base_dir) (List.filter effective lines) ds
    /\ foldl (import_line base_dir existing) (report_of ds0) lines
       = report_of (ds0 ++ ds).
Proof.
  revert ds0. induction lines as [|raw lines IH]; intros ds0.
  - exists []. split; [constructor|]. by rewrite app_nil_r.
  - simpl. destruct (effective raw) eqn:Heff.
    + destruct (import_line_entry base_dir existing ds0 raw Heff) as (d & Hd & ->).
      destruct (IH (ds0 ++ [d])) as (ds & Hds & ->).
      exists (d :: ds). split; [by constructor|]. by rewrite <- app_assoc.
    + rewrite import_line_unfold, Heff. cbn [negb]. apply IH.
Qed.

End importer_facts.

Section reconcile_facts.
Context `{OsPath}.

Lemma reconcile_known (existing : gset string) (st : list string * list string)
    (c : string) :
  norm c ∈ existing \/ norm c ∈ (norm <$> st.1) ->
  reconcile existing st c = (st.1, st.2 ++ [c]).
Proof.
  intros Hk. unfold reconcile.
  destruct (bool_decide (norm c ∈ existing)) eqn:Hex; [done|].
  apply bool_decide_eq_false in Hex.
  destruct Hk as [Hk|Hk]; [done|].
  apply list_elem_of_fmap in Hk as (p & Hp & Hin).
  assert (existsb (fun p => bool_decide (norm p = norm c)) st.1 = true) as ->; [|done].
  apply existsb_exists. exists p. split; [by apply list_elem_of_In|].
  by apply bool_decide_eq_true.
Qed.

Lemma reconcile_fresh (existing : gset string) (st : list string * list string)
    (c : string) :
  norm c ∉ existing -> norm c ∉ (norm <$> st.1) ->
  reconcile existing st c = (st.1 ++ [c], st.2).
Proof.
  intros Hex Hadd. unfold reconcile.
  rewrite (bool_decide_eq_false_2 _ Hex).
  assert (existsb (fun p => bool_decide (norm p = norm c)) st.1 = false) as ->; [|done].
  apply not_true_is_false. intros (p & Hp & Heq)%existsb_exists.
  apply bool_decide_eq_true in Heq. apply Hadd.
  apply list_elem_of_fmap. exists p. split; [done|]. by apply list_elem_of_In.
Qed.

Lemma reconcile_cases (existing : gset string) (st : list string * list string)
    (c : string) :
  (reconcile existing st c = (st.1, st.2 ++ [c])
   /\ (norm c ∈ existing \/ norm c ∈ (norm <$> st.1)))
  \/ (reconcile existing st c = (st.1 ++ [c], st.2)
      /\ (norm c ∉ existing) /\ (norm c ∉ (norm <$> st.1))).
Proof.
  destruct (decide (norm c ∈ existing)) as [Hex|Hex].
  { left. split; [|by left]. apply reconcile_known. by left. }
  destruct (decide (norm c ∈ (norm <$> st.1))) as [Hadd|Hadd].
  { left. split; [|by right]. apply reconcile_known. by right. }
  right. split; [|done]. by apply reconcile_fresh.
Qed.

(** What [added_paths] holds is new: pairwise distinct under [norm], and
    distinct under [norm] from the existing selection. *)
Lemma reconcile_loop_new (existing : gset string) (cs : list string)
    (st : list string * list string) :
  NoDup (norm <$> st.1) ->
  (forall p, p ∈ st.1 -> norm p ∉ existing) ->
  NoDup (norm <$> (foldl (reconcile existing) st cs).1)
  /\ (forall p, p ∈ (foldl (reconcile existing) st cs).1 -> norm p ∉ existing).
Proof.
  revert st. induction cs as [|c cs IH]; intros st Hnd Hex; [done|].
  simpl. apply IH.
  - destruct (reconcile_cases existing st c) as [[-> _]|(-> & Hc1 & Hc2)];
      [done|].
    simpl. rewrite fmap_app. apply NoDup_app. split; [done|]. split.
    + intros x Hx Hx'. apply list_elem_of_singleton in Hx'. by subst.
    + apply NoDup_singleton.
  - intros p. destruct (reconcile_cases existing st c) as [[-> _]|(-> & Hc1 & Hc2)];
      simpl; [by apply Hex|].
    rewrite elem_of_app, list_elem_of_singleton. intros [Hp| ->]; [by apply Hex|done].
Qed.

(** Every candidate seen is known afterwards, and nothing is lost. *)
Lemma reconcile_loop_covers (existing : gset string) (cs : list string)
    (st : list string * list string) :
  (forall p, p ∈ st.1 -> p ∈ (foldl (reconcile existing) st cs).1)
  /\ (forall c, c ∈ cs ->
        norm c ∈ existing
        \/ norm c ∈ (norm <$> (foldl (reconcile existing) st cs).1)).
Proof.
  revert st. induction cs as [|c cs IH]; intros st.
  { split; [done|]. intros c Hc. by apply elem_of_nil in Hc. }
  simpl. destruct (IH (reconcile existing st c)) as [Hmono Hcov].
  assert (Hstep : forall p, p ∈ st.1 -> p ∈ (reconcile existing st c).1).
  { intros p Hp.
    destruct (reconcile_cases existing st c) as [[-> _]|(-> & _)]; simpl;
      [done|]. rewrite elem_of_app. by left. }
  split; [by auto|].
  intros c' Hc'. apply elem_of_cons in Hc' as [->|Hc']; [|by apply Hcov].
  destruct (reconcile_cases existing st c) as [[Hr Hk]|(Hr & _)].
  - destruct Hk as [Hk|Hk]; [by left|]. right.
    apply list_elem_of_fmap in Hk as (p & -> & Hp).
    apply list_elem_of_fmap. exists p. split; [done|]. by apply Hmono, Hstep.
  - right. apply list_elem_of_fmap. exists c. split; [done|].
    apply Hmono. rewrite Hr. simpl. rewrite elem_of_app, list_elem_of_singleton.
    by right.
Qed.

Lemma reconcile_loop_perm (existing : gset string) (cs : list string)
    (st : list string * list string) :
  (foldl (reconcile existing) st cs).1 ++ (foldl (reconcile existing) st cs).2
  ≡ₚ st.1 ++ st.2 ++ cs.
Proof.
  revert st. induction cs as [|c cs IH]; intros st.
  { simpl. by rewrite app_nil_r. }
  simpl. rewrite IH.
  destruct (reconcile_cases existing st c) as [[-> _]|(-> & _)]; simpl.
  - by rewrite <- !app_assoc.
  - rewrite <- !app_assoc. f_equiv. simpl.
    rewrite (Permutation_app_comm st.2 (c :: cs)). simpl.
    f_equiv. apply Permutation_app_comm.
Qed.

Lemma reconcile_loop_known (existing : gset string) (cs : list string)
    (st : list string * list string) :
  (forall c, c ∈ cs -> norm c ∈ existing) ->
  foldl (reconcile existing) st cs = (st.1, st.2 ++ cs).
Proof.
  revert st. induction cs as [|c cs IH]; intros st Hall.
  { simpl. rewrite app_nil_r. by destruct st. }
  simpl. rewrite reconcile_known by (left; apply Hall; by left).
  rewrite IH by (intros c' Hc'; apply Hall; by right).
  simpl. by rewrite <- app_assoc.
Qed.

End reconcile_facts.

Section importer_claims.
Context `{OsPath} `{ListFileIO}.
Import pystr.

(** The loop in closed form: the two text sequences grow by the prepared
    text of the rejected and of the missing lines, and the candidates of
    the other effective lines go through [reconcile]. *)
Lemma import_loop_closed (base_dir : string) (existing : gset string)
    (lines : list string) (r : report) :
  foldl (import_line base_dir existing) r lines
  = let st := foldl (reconcile existing) (added_paths r, already_present r)
                (resolved base_dir <$> List.filter (present base_dir) lines) in
    {| added_paths := st.1;
       already_present := st.2;
       not_found :=
         not_found r ++ (prepared <$> List.filter (missing base_dir) lines);
       skipped_not_allowed :=
         skipped_not_allowed r
         ++ (prepared <$> List.filter (rejected base_dir) lines) |}.
Proof.
  revert r. induction lines as [|raw lines IH]; intros r.
  { simpl. rewrite !app_nil_r. by destruct r. }
  simpl foldl. rewrite IH, import_line_unfold. clear IH.
  simpl List.filter. unfold present, missing, rejected.
  destruct (effective raw); cbn [negb andb]; [|done].
  destruct (is_allowed (resolved base_dir raw)); cbn [negb andb].
  - destruct (isfile (resolved base_dir raw)); cbn [negb andb].
    + cbn [added_paths already_present not_found skipped_not_allowed].
      rewrite fmap_cons. simpl foldl.
      by destruct (reconcile existing _ (resolved base_dir raw)) as [a b].
    + cbn [added_paths already_present not_found skipped_not_allowed].
      rewrite fmap_cons. by rewrite <- app_assoc.
  - cbn [added_paths already_present not_found skipped_not_allowed].
    rewrite fmap_cons. by rewrite <- app_assoc.
Qed.

(** C2, amended: the text recorded in [skipped_not_allowed] and in
    [not_found] is the line after trimming, after the removal of one pair
    of surrounding quotes and after the expansion of home directory and
    environment variables; it is the text before the path is made
    absolute and normalized. *)
Theorem recorded_text_is_prepared_line (selected_files : list string)
    (list_path : string) (lines : list string) (last_err : option exception) :
  read_lines list_path encodings None = inr (lines, last_err) ->
  exists dlg r,
    parse_file_list selected_files list_path = (dlg, inr r)
    /\ skipped_not_allowed r
       = (prepared <$> List.filter (rejected (dirname list_path)) lines)
    /\ not_found r
       = (prepared <$> List.filter (missing (dirname list_path)) lines).
Proof.
  intros Hr. rewrite (parse_file_list_lines _ _ _ _ Hr).
  eexists _, _. split; [reflexivity|].
  rewrite import_loop_closed. by split.
Qed.

(** C4: every line of the manifest that is neither blank nor a comment
    makes exactly one entry, in exactly one of the four sequences of the
    report, and the sequences hold nothing else; no such line is dropped,
    not even one that is empty once its quotes are removed. *)
Theorem every_line_has_one_entry (selected_files : list string)
    (list_path : string) (lines : list string) (last_err : option exception) :
  read_lines list_path encodings None = inr (lines, last_err) ->
  exists dlg ds,
    parse_file_list selected_files list_path = (dlg, inr (report_of ds))
    /\ Forall2 (entry_for (dirname list_path)) (List.filter effective lines) ds.
Proof.
  intros Hr. rewrite (parse_file_list_lines _ _ _ _ Hr).
  destruct (import_loop_entries (dirname list_path)
              (list_to_set (norm <$> selected_files)) lines [])
    as (ds & Hds & Hfold).
  exists (decode_dialogs last_err lines), ds. split; [|done].
  f_equal. f_equal. exact Hfold.
Qed.

(** C6: no path goes to [added_paths] whose [norm] is that of an entry of
    the existing selection or of a path added before it in the same call.
    A second import of the same list, with the added paths now part of the
    selection, adds nothing and reports each of them, with the paths that
    were already present, in [already_present]. *)
Theorem import_never_duplicates (selected_files : list string)
    (list_path : string) (dlg : list dialog) (r : report) :
  parse_file_list selected_files list_path = (dlg, inr r) ->
  NoDup (norm <$> added_paths r)
  /\ (forall p q, p ∈ added_paths r -> q ∈ selected_files -> norm p <> norm q)
  /\ exists r2,
       parse_file_list (selected_files ++ added_paths r) list_path = (dlg, inr r2)
       /\ added_paths r2 = []
       /\ already_present r2 ≡ₚ added_paths r ++ already_present r
       /\ not_found r2 = not_found r
       /\ skipped_not_allowed r2 = skipped_not_allowed r.
Proof.
  intros (lines & last_err & Hr & -> & ->)%parse_file_list_returns.
  rewrite (parse_file_list_lines _ _ _ _ Hr).
  rewrite !import_loop_closed.
  cbn [added_paths already_present not_found skipped_not_allowed empty_report].
  set (existing := list_to_set (norm <$> selected_files) : gset string).
  set (cs := resolved (dirname list_path)
               <$> List.filter (present (dirname list_path)) lines).
  destruct (reconcile_loop_new existing cs ([], [])) as [Hnd Hnew].
  { simpl. apply NoDup_nil_2. }
  { intros p Hp. by apply elem_of_nil in Hp. }
  destruct (reconcile_loop_covers existing cs ([], [])) as [_ Hcov].
  pose proof (reconcile_loop_perm existing cs ([], [])) as Hperm.
  set (st := foldl (reconcile existing) ([], []) cs) in *.
  split; [done|]. split.
  { intros p q Hp Hq Heq. apply (Hnew p Hp). rewrite Heq.
    apply elem_of_list_to_set, list_elem_of_fmap. by exists q. }
  eexists. split; [reflexivity|].
  cbn [added_paths already_present not_found skipped_not_allowed].
  rewrite reconcile_loop_known.
  - simpl. split; [done|]. split; [|done]. by rewrite Hperm.
  - intros c Hc. apply elem_of_list_to_set. rewrite fmap_app, elem_of_app.
    destruct (Hcov c Hc) as [Hex|Hadd]; [left|by right].
    by apply elem_of_list_to_set in Hex.
Qed.

End importer_claims.

(** *** The importer on the example host *)

Lemma recorded_text_is_prepared_line_witness :
  @read_lines demo.io "/proj/list2.txt" (@encodings demo.io) None
  = inr (demo.manifest2, None)
  /\ exists dlg r,
       @parse_file_list demo.os demo.io [] "/proj/list2.txt" = (dlg, inr r)
       /\ skipped_not_allowed r = ["image.png"; "/home/u/pic.png"]
       /\ not_found r = ["/home/u/notes.txt"].
Proof.
  split; [reflexivity|].
  destruct (@recorded_text_is_prepared_line demo.os demo.io [] "/proj/list2.txt"
              demo.manifest2 None eq_refl) as (dlg & r & Hp & Hs & Hn).
  exists dlg, r. split; [exact Hp|].
  rewrite Hs, Hn. split; vm_compute; reflexivity.
Defined.

(** C2 as stated fails: what is recorded for the quoted line is the name
    without its quotes, and for the other two lines the expanded path; none
    of the three trimmed lines is in the report. *)
Lemma recorded_text_is_not_original_line :
  (pystr.strip <$> demo.manifest2)
  = [dquote +:+ "image.png" +:+ dquote; "~/notes.txt"; "$HOME/pic.png"]
  /\ (@parse_file_list demo.os demo.io [] "/proj/list2.txt").2
     = inr {| added_paths := [];
              already_present := [];
              not_found := ["/home/u/notes.txt"];
              skipped_not_allowed := ["image.png"; "/home/u/pic.png"] |}
  /\ ((dquote +:+ "image.png" +:+ dquote) ∉ ["image.png"; "/home/u/pic.png"])
  /\ ("$HOME/pic.png" ∉ ["image.png"; "/home/u/pic.png"])
  /\ ("~/notes.txt" ∉ ["/home/u/notes.txt"]).
Proof.
  split; [vm_compute; reflexivity|]. split; [vm_compute; reflexivity|].
  repeat split; intros Hin; repeat (apply elem_of_cons in Hin as [Hin|Hin];
    [discriminate Hin|]); by apply elem_of_nil in Hin.
Qed.

Lemma every_line_has_one_entry_witness :
  @read_lines demo.io "/proj/list.txt" (@encodings demo.io) None
  = inr (demo.manifest, None)
  /\ List.filter (@effective) demo.manifest
     = [ "docs/readme.md" +:+ pystr.nl; "missing.txt" +:+ pystr.nl;
         dquote +:+ "image.png" +:+ dquote +:+ pystr.nl ]
  /\ exists dlg ds,
       @parse_file_list demo.os demo.io [] "/proj/list.txt"
       = (dlg, inr (@report_of ds))
       /\ Forall2 (@entry_for demo.os (@dirname demo.os "/proj/list.txt"))
            (List.filter (@effective) demo.manifest) ds.
Proof.
  split; [reflexivity|]. split; [vm_compute; reflexivity|].
  exact (@every_line_has_one_entry demo.os demo.io [] "/proj/list.txt"
           demo.manifest None eq_refl).
Defined.

Lemma import_never_duplicates_witness :
  @parse_file_list demo.os demo.io [] "/proj/list.txt"
  = ([], inr {| added_paths := ["/proj/docs/readme.md"];
                already_present := [];
                not_found := ["missing.txt"];
                skipped_not_allowed := ["image.png"] |})
  /\ exists r2,
       @parse_file_list demo.os demo.io ["/proj/docs/readme.md"] "/proj/list.txt"
       = ([], inr r2)
       /\ added_paths r2 = []
       /\ already_present r2 ≡ₚ ["/proj/docs/readme.md"].
Proof.
  assert (Hp : @parse_file_list demo.os demo.io [] "/proj/list.txt"
    = ([], inr {| added_paths := ["/proj/docs/readme.md"];
                  already_present := [];
                  not_found := ["missing.txt"];
                  skipped_not_allowed := ["image.png"] |})).
  { vm_compute. reflexivity. }
  split; [exact Hp|].
  destruct (@import_never_duplicates demo.os demo.io [] "/proj/list.txt" _ _ Hp)
    as (_ & _ & r2 & Hp2 & Ha & Hperm & _).
  exists r2. split; [exact Hp2|]. split; [exact Ha|exact Hperm].
Defined.

(** ** The natural sort *)

Section natsort_facts.
Import natsort.

Lemma runs_alternate_runs (s : string) : runs_alternate (runs s) = true.
Proof.
  induction s as [|c t IH]; [reflexivity|].
  simpl runs. destruct (runs t) as [|[d r] rest] eqn:Hr; [reflexivity|].
  destruct (Bool.eqb d (is_digit c)) eqn:Hd.
  - destruct rest as [|[d2 r2] rest]; [reflexivity|]. exact IH.
  - change (negb (Bool.eqb (is_digit c) d) && runs_alternate ((d, r) :: rest)
            = true).
    rewrite IH, andb_true_r.
    destruct d, (is_digit c); done.
Qed.

Lemma alternates_components (l : list (bool * string)) :
  runs_alternate l = true ->
  match l with
  | [] => True
  | (d, _) :: _ => alternates (negb d) (to_component <$> l) = true
  end.
Proof.
  induction l as [|[d r] l IH]; [done|].
  intros Halt. destruct l as [|[d2 r2] l].
  - by destruct d.
  - change (negb (Bool.eqb d d2) && runs_alternate ((d2, r2) :: l) = true)
      in Halt.
    apply andb_true_iff in Halt as [Hd Halt].
    specialize (IH Halt). rewrite fmap_cons.
    unfold to_component at 1. cbn [fst snd].
    destruct d, d2; try discriminate Hd; cbn [alternates negb andb];
      exact IH.
Qed.

(** In a key a [str] and an [int] take turns, from a [str]: two keys are
    compared [str] with [str] and [int] with [int]. *)
Lemma natsort_key_alternates (s : string) :
  alternates true (natsort_key s) = true.
Proof.
  unfold natsort_key.
  pose proof (alternates_components (runs s) (runs_alternate_runs s)) as Ha.
  destruct (runs s) as [|[d r] l]; [reflexivity|].
  rewrite fmap_cons in *.
  destruct d; unfold to_component at 1; unfold to_component at 1 in Ha;
    cbn [fst snd sep_inserter alternates negb andb] in *; exact Ha.
Qed.

Lemma has_digit_cons (c : ascii) (t : string) :
  has_digit (String c t) = is_digit c || has_digit t.
Proof. reflexivity. Qed.

Lemma runs_no_digit (s : string) :
  has_digit s = false -> s <> "" -> runs s = [(false, s)].
Proof.
  induction s as [|c t IH]; [done|].
  rewrite has_digit_cons. intros [Hc Ht]%orb_false_iff _.
  simpl runs. destruct t as [|c2 t2].
  - simpl. by rewrite Hc.
  - rewrite IH by done. by rewrite Hc.
Qed.

Lemma natsort_key_no_digit (s : string) :
  has_digit s = false ->
  natsort_key s = match s with EmptyString => [] | _ => [Str s] end.
Proof.
  intros Hs. destruct s as [|c t]; [reflexivity|].
  unfold natsort_key. by rewrite runs_no_digit.
Qed.

Lemma compare_tuple_no_digit (a b : string) :
  has_digit a = false -> has_digit b = false ->
  compare_tuple (natsort_key a) (natsort_key b) = String.compare a b.
Proof.
  intros Ha Hb. rewrite !natsort_key_no_digit by done.
  destruct a as [|ca ta], b as [|cb tb]; try reflexivity.
  cbn [compare_tuple compare_component].
  by destruct (String.compare (String ca ta) (String cb tb)).
Qed.

Lemma runs_cons (c : ascii) (t : string) :
  runs (String c t)
  = match runs t with
    | (d, r) :: rest =>
        if Bool.eqb d (is_digit c) then (d, String c r) :: rest
        else (is_digit c, String c EmptyString) :: (d, r) :: rest
    | [] => [(is_digit c, String c EmptyString)]
    end.
Proof. reflexivity. Qed.

(** The first run of a string starts with its first character. *)
Lemma runs_head_char (a : ascii) (t : string) :
  exists r rest, runs (String a t) = (is_digit a, String a r) :: rest.
Proof.
  simpl. destruct (runs t) as [|[d r] rest]; [by eauto|].
  destruct (Bool.eqb d (is_digit a)) eqn:Hd; [|by eauto].
  apply Bool.eqb_prop in Hd as ->. eauto.
Qed.

Lemma runs_head (a : ascii) (t : string) :
  exists r rest, runs (String a t) = (is_digit a, r) :: rest.
Proof. destruct (runs_head_char a t) as (r & rest & ->). eauto. Qed.

(** The runs of [p] followed by a character that is not a digit: the runs
    that lie within [p], then the run that holds the character, which
    starts with the end [u] of [p]. *)
Lemma runs_common_prefix (p : string) :
  exists (L : list (bool * string)) (u : string),
    forall c t, is_digit c = false ->
      exists r rest,
        runs (p +:+ String c t) = L ++ (false, u +:+ String c r) :: rest.
Proof.
  induction p as [|x p (L & u & IH)].
  - exists [], "". intros c t Hc.
    destruct (runs_head_char c t) as (r & rest & Hr). exists r, rest.
    change ("" +:+ String c t) with (String c t). by rewrite Hr, Hc.
  - destruct L as [|[dl rl] L'].
    + destruct (is_digit x) eqn:Hx.
      * exists [(true, String x "")], u. intros c t Hc.
        destruct (IH c t Hc) as (r & rest & Hr). exists r, rest.
        rewrite app_cons, runs_cons, Hr, Hx. reflexivity.
      * exists [], (String x u). intros c t Hc.
        destruct (IH c t Hc) as (r & rest & Hr). exists r, rest.
        rewrite app_cons, runs_cons, Hr, Hx. reflexivity.
    + destruct (Bool.eqb dl (is_digit x)) eqn:Hd.
      * exists ((dl, String x rl) :: L'), u. intros c t Hc.
        destruct (IH c t Hc) as (r & rest & Hr). exists r, rest.
        rewrite app_cons, runs_cons, Hr. rewrite <- !app_comm_cons.
        cbv iota beta. by rewrite Hd.
      * exists ((is_digit x, String x "") :: (dl, rl) :: L'), u. intros c t Hc.
        destruct (IH c t Hc) as (r & rest & Hr). exists r, rest.
        rewrite app_cons, runs_cons, Hr. rewrite <- !app_comm_cons.
        cbv iota beta. by rewrite Hd.
Qed.

Lemma natsort_key_common_prefix (p : string) :
  exists (P : list component) (u : string),
    forall c t, is_digit c = false ->
      exists r k,
        natsort_key (p +:+ String c t) = P ++ Str (u +:+ String c r) :: k.
Proof.
  destruct (runs_common_prefix p) as (L & u & HL).
  destruct L as [|[dl rl] L'].
  - exists [], u. intros c t Hc. destruct (HL c t Hc) as (r & rest & Hr).
    exists r, (to_component <$> rest). unfold natsort_key. by rewrite Hr.
  - exists (sep_inserter (to_component <$> (dl, rl) :: L')), u.
    intros c t Hc. destruct (HL c t Hc) as (r & rest & Hr).
    exists r, (to_component <$> rest). unfold natsort_key. rewrite Hr.
    rewrite <- app_comm_cons, !fmap_cons, fmap_app, fmap_cons.
    unfold to_component at 1 3. cbn [fst snd]. by destruct dl.
Qed.

Lemma compare_component_refl (a : component) : compare_component a a = Eq.
Proof.
  destruct a as [s|n]; simpl; [apply string_compare_refl|apply N.compare_refl].
Qed.

Lemma compare_tuple_app_same (P X Y : list component) :
  compare_tuple (P ++ X) (P ++ Y) = compare_tuple X Y.
Proof.
  induction P as [|a P IH]; [done|]. simpl. by rewrite compare_component_refl.
Qed.

Lemma compare_tuple_refl (k : list component) : compare_tuple k k = Eq.
Proof.
  induction k as [|a k IH]; [done|]. simpl. by rewrite compare_component_refl.
Qed.

Lemma string_compare_first_difference (p ra rb : string) (c d : ascii) :
  c <> d ->
  String.compare (p +:+ String c ra) (p +:+ String d rb) = Ascii.compare c d.
Proof.
  intros Hne. rewrite string_compare_app_same. simpl.
  destruct (Ascii.compare c d) eqn:Hcd; [|done|done].
  by apply Ascii.compare_eq_iff in Hcd.
Qed.

(** The key holds every character that is not a digit as it is. *)
Lemma key_text_runs (s : string) :
  key_text (to_component <$> runs s) = non_digits s.
Proof.
  induction s as [|c t IH]; [done|].
  rewrite runs_cons. cbn [non_digits].
  destruct (runs t) as [|[d r] rest].
  - simpl in IH. rewrite <- IH. unfold to_component. cbn [fmap list_fmap fst snd].
    by destruct (is_digit c).
  - rewrite fmap_cons in IH. unfold to_component at 1 in IH. cbn [fst snd] in IH.
    destruct (Bool.eqb d (is_digit c)) eqn:Hd.
    + apply Bool.eqb_prop in Hd as <-. rewrite fmap_cons.
      unfold to_component at 1. cbn [fst snd].
      destruct d; cbn [key_text] in *; [done|]. by rewrite app_cons, IH.
    + rewrite !fmap_cons. unfold to_component at 1 2. cbn [fst snd].
      destruct (is_digit c), d; try discriminate Hd; cbn [key_text] in *;
        by rewrite ?app_cons, IH.
Qed.

Lemma key_text_natsort_key (s : string) :
  key_text (natsort_key s) = non_digits s.
Proof.
  unfold natsort_key. rewrite <- key_text_runs.
  by destruct (to_component <$> runs s) as [|[r|n] k].
Qed.

(** Two names that first differ in two characters that are not digits
    have their keys in the order of these two characters. *)
Lemma compare_first_difference (p ra rb : string) (c d : ascii) :
  is_digit c = false -> is_digit d = false -> c <> d ->
  compare_tuple (natsort_key (p +:+ String c ra)) (natsort_key (p +:+ String d rb))
  = Ascii.compare c d.
Proof.
  intros Hc Hd Hne.
  destruct (natsort_key_common_prefix p) as (P & u & HP).
  destruct (HP c ra Hc) as (r1 & k1 & ->).
  destruct (HP d rb Hd) as (r2 & k2 & ->).
  rewrite compare_tuple_app_same. cbn [compare_tuple compare_component].
  rewrite (string_compare_first_difference u r1 r2 c d Hne).
  destruct (Ascii.compare c d) eqn:Hcd; [|done|done].
  by apply Ascii.compare_eq_iff in Hcd.
Qed.

(** Two strings that are equal once lowered are equal or first differ in
    two characters that are equal once lowered. *)
Lemma lower_split (a b : string) :
  pystr.lower a = pystr.lower b ->
  a = b
  \/ exists p c d ra rb,
       a = p +:+ String c ra /\ b = p +:+ String d rb
       /\ c <> d /\ pystr.lower_char c = pystr.lower_char d.
Proof.
  revert b. induction a as [|x a IH]; intros [|y b]; simpl; try done.
  { by left. }
  intros [= Hxy Hab]. destruct (decide (x = y)) as [->|Hne].
  - destruct (IH b Hab) as [->|(p & c & d & ra & rb & -> & -> & Hcd & Hl)];
      [by left|right].
    exists (String y p), c, d, ra, rb. by rewrite !app_cons.
  - right. by exists "", x, y, a, b.
Qed.

(** Lowering changes letters only: it maps no other character to a digit. *)
Lemma lower_char_digit (x y : ascii) :
  pystr.lower_char x = pystr.lower_char y -> x <> y -> is_digit x = false.
Proof.
  intros Hl Hne. apply not_true_is_false. intros Hx.
  unfold is_digit, pystr.code in Hx.
  apply andb_true_iff in Hx as [H1 H2]. apply N.leb_le in H1, H2.
  unfold pystr.lower_char, pystr.code in Hl.
  assert (Hx1 : ((65 <=? N_of_ascii x) && (N_of_ascii x <=? 90))%N = false).
  { apply andb_false_iff. left. apply N.leb_gt. lia. }
  assert (Hx2 : ((192 <=? N_of_ascii x) && (N_of_ascii x <=? 222)
                 && negb (N_of_ascii x =? 215))%N = false).
  { apply andb_false_iff. left. apply andb_false_iff. left. apply N.leb_gt. lia. }
  rewrite Hx1, Hx2 in Hl.
  destruct ((65 <=? N_of_ascii y) && (N_of_ascii y <=? 90))%N eqn:Hy1.
  { apply andb_true_iff in Hy1 as [A B]. apply N.leb_le in A, B.
    apply (f_equal N_of_ascii) in Hl. rewrite N_ascii_embedding in Hl by lia.
    lia. }
  destruct ((192 <=? N_of_ascii y) && (N_of_ascii y <=? 222)
            && negb (N_of_ascii y =? 215))%N eqn:Hy2.
  { apply andb_true_iff in Hy2 as [[A B]%andb_true_iff _].
    apply N.leb_le in A, B.
    apply (f_equal N_of_ascii) in Hl. rewrite N_ascii_embedding in Hl by lia.
    lia. }
  congruence.
Qed.

(** Two names that differ in letter case only, with or without digits,
    have their keys in the order of the strings. *)
Lemma compare_case_difference (a b : string) :
  pystr.lower a = pystr.lower b ->
  compare_tuple (natsort_key a) (natsort_key b) = String.compare a b.
Proof.
  intros [->|(p & c & d & ra & rb & -> & -> & Hne & Hl)]%lower_split.
  { by rewrite compare_tuple_refl, string_compare_refl. }
  rewrite string_compare_first_difference by done.
  apply compare_first_difference; [| |done].
  - by apply (lower_char_digit c d).
  - by apply (lower_char_digit d c).
Qed.

Lemma sort_files_pair (a b : string) :
  compare_tuple (natsort_key b) (natsort_key a) = String.compare b a ->
  sort_files [a; b] = if String.ltb b a then [b; a] else [a; b].
Proof.
  intros Hc. unfold sort_files, natsorted. cbn [foldr insert]. unfold key_lt.
  rewrite Hc. unfold String.ltb. by destruct (String.compare b a).
Qed.

(** C5, amended: on ASCII names the natural sort does not fold case.  The
    key of a name holds the characters of the name that are not digits as
    they are, and its runs without digits are compared by code point.  Two
    names that first differ in two characters that are not digits are
    ordered by the code points of those two characters, whatever digits
    the names hold; so two names without digits, and two names that differ
    in letter case only, digits or not, are ordered as the strings are by
    code point, upper case before lower case, and the sort of the program
    puts them in that order. *)
Theorem natsort_is_case_sensitive (a b : string) :
  isascii a = true -> isascii b = true ->
  (key_text (natsort_key a) = non_digits a
   /\ forall r t, compare_component (Str r) (Str t) = String.compare r t)
  /\ (forall p c d ra rb,
     a = p +:+ String c ra -> b = p +:+ String d rb ->
     is_digit c = false -> is_digit d = false -> c <> d ->
     compare_tuple (natsort_key a) (natsort_key b) = Ascii.compare c d)
  /\ ((has_digit a = false /\ has_digit b = false)
      \/ pystr.lower a = pystr.lower b ->
      compare_tuple (natsort_key a) (natsort_key b) = String.compare a b
      /\ (a <> b -> compare_tuple (natsort_key a) (natsort_key b) <> Eq)
      /\ sort_files [a; b] = if String.ltb b a then [b; a] else [a; b]).
Proof.
  intros _ _. split; [split; [apply key_text_natsort_key|done]|]. split.
  - intros p c d ra rb -> -> Hc Hd Hne. by apply compare_first_difference.
  - intros Hcase.
    assert (Hab : compare_tuple (natsort_key a) (natsort_key b)
                  = String.compare a b).
    { destruct Hcase as [[Ha Hb]|Hl];
        [by apply compare_tuple_no_digit|by apply compare_case_difference]. }
    split; [exact Hab|]. split.
    + intros Hne Heq. rewrite Hab in Heq. by apply String.compare_eq_iff in Heq.
    + apply sort_files_pair.
      destruct Hcase as [[Ha Hb]|Hl];
        [by apply compare_tuple_no_digit|by apply compare_case_difference].
Qed.

End natsort_facts.

Lemma natsort_is_case_sensitive_witness :
  isascii "file1.txt" = true /\ isascii "FILE1.txt" = true
  /\ pystr.lower "file1.txt" = pystr.lower "FILE1.txt"
  /\ natsort.compare_tuple (natsort.natsort_key "file1.txt")
       (natsort.natsort_key "FILE1.txt") = Gt
  /\ sort_files ["file1.txt"; "FILE1.txt"] = ["FILE1.txt"; "file1.txt"]
  /\ key_text (natsort.natsort_key "file1.txt") = "file.txt".
Proof.
  split; [reflexivity|]. split; [reflexivity|]. split; [reflexivity|].
  destruct (natsort_is_case_sensitive "file1.txt" "FILE1.txt" eq_refl eq_refl)
    as ([Hkey _] & _ & Hcase).
  destruct (Hcase (or_intror eq_refl)) as (Hc & _ & Hs).
  split; [rewrite Hc; reflexivity|]. split; [rewrite Hs; reflexivity|].
  rewrite Hkey. reflexivity.
Defined.

(** C5 as stated fails: two names that differ only in letter case are not
    ranked equal, the upper-case one comes first whatever the order they
    were given in, and "B" sorts before "a". *)
Lemma natsort_is_not_case_insensitive :
  pystr.lower "a.txt" = pystr.lower "A.txt"
  /\ natsort.compare_tuple (natsort.natsort_key "a.txt") (natsort.natsort_key "A.txt")
     <> Eq
  /\ sort_files ["a.txt"; "A.txt"] = ["A.txt"; "a.txt"]
  /\ sort_files ["A.txt"; "a.txt"] = ["A.txt"; "a.txt"]
  /\ sort_files ["a"; "B"] = ["B"; "a"].
Proof. repeat split; try (vm_compute; reflexivity). vm_compute. discriminate. Qed.

(** * Further properties *)

(** ** Strings, continued *)

Section pystr_facts.
Import pystr.

Lemma lower_char_idem (c : ascii) : lower_char (lower_char c) = lower_char c.
Proof. destruct c as [[] [] [] [] [] [] [] []]; vm_compute; reflexivity. Qed.

Lemma lower_idem (s : string) : lower (lower s) = lower s.
Proof. induction s as [|c s IH]; [done|]. simpl. by rewrite lower_char_idem, IH. Qed.

Lemma lower_char_slash (c : ascii) : lower_char c = "/"%char <-> c = "/"%char.
Proof.
  destruct c as [[] [] [] [] [] [] [] []]; vm_compute; split; congruence.
Qed.

Lemma lower_char_dot (c : ascii) : lower_char c = "."%char <-> c = "."%char.
Proof.
  destruct c as [[] [] [] [] [] [] [] []]; vm_compute; split; congruence.
Qed.

Lemma rfind_from_lower (c : ascii) (s : string) (i found : Z) :
  (forall a, lower_char a = c <-> a = c) ->
  rfind_from c (lower s) i found = rfind_from c s i found.
Proof.
  intros Hc. revert i found. induction s as [|a s IH]; intros i found; [done|].
  simpl. rewrite IH. f_equal.
  destruct (decide (a = c)) as [->|Hne].
  - rewrite !bool_decide_eq_true_2; [done..|by apply Hc].
  - rewrite !bool_decide_eq_false_2; [done..|by rewrite Hc].
Qed.

Lemma drop_chars_lower (n : nat) (s : string) :
  drop_chars n (lower s) = lower (drop_chars n s).
Proof. revert s. induction n as [|n IH]; intros [|c s]; simpl; auto. Qed.

Lemma take_chars_lower (n : nat) (s : string) :
  take_chars n (lower s) = lower (take_chars n s).
Proof.
  revert s. induction n as [|n IH]; intros [|c s]; simpl; auto.
  by rewrite IH.
Qed.

Lemma take_drop_chars (n : nat) (s : string) :
  take_chars n s +:+ drop_chars n s = s.
Proof.
  revert s. induction n as [|n IH]; intros [|c s]; simpl; auto.
  by rewrite app_cons, IH.
Qed.

Lemma length_app_str (s t : string) :
  String.length (s +:+ t) = (String.length s + String.length t)%nat.
Proof. induction s as [|c s IH]; [done|]. rewrite app_cons. simpl. by rewrite IH. Qed.

Lemma drop_chars_app (s t : string) : drop_chars (String.length s) (s +:+ t) = t.
Proof. induction s as [|c s IH]; [by destruct t|]. exact IH. Qed.

(** [c in s], by the characters of [s]. *)
Lemma find_in_range (c : ascii) (s : string) (i : Z) :
  find_in c s i = -1 \/ i <= find_in c s i.
Proof.
  revert i. induction s as [|a s IH]; intros i; simpl; [by left|].
  case_bool_decide; [right; lia|]. destruct (IH (i + 1)); [by left|right; lia].
Qed.

Lemma find_in_shift (c : ascii) (s : string) (i j : Z) :
  0 <= i -> 0 <= j -> find_in c s i = -1 <-> find_in c s j = -1.
Proof.
  revert i j. induction s as [|a s IH]; intros i j Hi Hj; simpl; [done|].
  case_bool_decide; [lia|]. apply IH; lia.
Qed.

Lemma contains_char_cons (c a : ascii) (s : string) :
  contains_char c (String a s) = bool_decide (a = c) || contains_char c s.
Proof.
  unfold contains_char, find, slice_from. simpl.
  destruct (bool_decide (a = c)) eqn:Ha; simpl; [done|].
  pose proof (find_in_shift c s 0 (0 + 1)) as Hshift.
  destruct (find_in_range c s 0) as [H0|H0], (find_in_range c s (0 + 1)) as [H1|H1].
  - by rewrite H0, H1.
  - lia.
  - lia.
  - rewrite !bool_decide_eq_true_2; [done|lia|lia].
Qed.

Lemma rfind_from_absent (c : ascii) (s : string) (i found : Z) :
  contains_char c s = false -> rfind_from c s i found = found.
Proof.
  revert i found. induction s as [|a s IH]; intros i found; [done|].
  rewrite contains_char_cons. intros [Ha Hs]%orb_false_iff.
  simpl. rewrite Ha. by apply IH.
Qed.

Lemma rfind_from_last (c : ascii) (s t : string) (i found : Z) :
  contains_char c t = false ->
  rfind_from c (s +:+ String c t) i found = i + len s.
Proof.
  intros Ht. revert i found. induction s as [|a s IH]; intros i found.
  - simpl. rewrite bool_decide_eq_true_2 by done.
    rewrite rfind_from_absent by done. unfold len. simpl. lia.
  - rewrite app_cons. simpl. rewrite IH. unfold len. simpl String.length. lia.
Qed.

Lemma contains_char_lower (c : ascii) (s : string) :
  (forall a, lower_char a = c <-> a = c) ->
  contains_char c (lower s) = contains_char c s.
Proof.
  intros Hc. induction s as [|a s IH]; [done|].
  simpl lower. rewrite !contains_char_cons, IH. f_equal.
  destruct (decide (a = c)) as [->|Hne].
  - rewrite !bool_decide_eq_true_2; [done..|by apply Hc].
  - rewrite !bool_decide_eq_false_2; [done..|by rewrite Hc].
Qed.

End pystr_facts.

(** ** The type classifier on a POSIX host *)

Section classifier_facts.
Import pystr.
Variables (ps : posixpath.process) (isf : string -> bool).
Local Abbreviation posix := (posix_OsPath ps isf).

Lemma of_chars_app (l1 l2 : list ascii) :
  of_chars (l1 ++ l2) = of_chars l1 +:+ of_chars l2.
Proof. induction l1 as [|a l1 IH]; [done|]. simpl. by rewrite app_cons, <- IH. Qed.

Lemma of_chars_chars (s : string) : of_chars (chars s) = s.
Proof. apply String.string_of_list_ascii_of_string. Qed.

Lemma chars_of_chars (l : list ascii) : chars (of_chars l) = l.
Proof. apply String.list_ascii_of_string_of_list_ascii. Qed.

Lemma prefix_one (c : ascii) (s : string) :
  String.prefix (String c "") s
  = match s with String a _ => bool_decide (c = a) | EmptyString => false end.
Proof.
  destruct s as [|a s]; [done|]. cbn [String.prefix].
  destruct (ascii_dec c a) as [Hc|Hc].
  - rewrite bool_decide_eq_true_2 by done. by destruct s.
  - by rewrite bool_decide_eq_false_2.
Qed.

Lemma endswith_sep (d : string) :
  endswith "/" d = true -> exists d', d = d' +:+ "/".
Proof.
  unfold endswith. change (of_chars (rev (chars "/"))) with "/".
  rewrite prefix_one.
  destruct (of_chars (rev (chars d))) as [|a x] eqn:Hrev; [done|].
  intros <-%bool_decide_eq_true.
  exists (of_chars (rev (chars x))).
  apply (f_equal chars) in Hrev. rewrite chars_of_chars in Hrev.
  apply (f_equal (@rev ascii)) in Hrev. rewrite rev_involutive in Hrev.
  rewrite <- (of_chars_chars d), Hrev. simpl. by rewrite of_chars_app.
Qed.

Lemma startswith_sep (name : string) :
  contains_char "/" name = false -> startswith "/" name = false.
Proof.
  unfold startswith. rewrite prefix_one.
  destruct name as [|a name]; [done|]. rewrite contains_char_cons.
  intros [Ha _]%orb_false_iff. apply bool_decide_eq_false in Ha.
  apply bool_decide_eq_false. congruence.
Qed.

Lemma basename_plain (name : string) :
  contains_char "/" name = false -> posixpath.basename name = name.
Proof.
  intros Hn. unfold posixpath.basename, rfind.
  by rewrite rfind_from_absent.
Qed.

Lemma basename_after_sep (d name : string) :
  contains_char "/" name = false ->
  posixpath.basename (d +:+ String "/" name) = name.
Proof.
  intros Hn. unfold posixpath.basename, rfind, posixpath.sep.
  rewrite rfind_from_last by done. unfold slice_from, len.
  replace (Z.to_nat (0 + Z.of_nat (String.length d) + 1))
    with (String.length (d +:+ "/")) by (rewrite length_app_str; simpl; lia).
  replace (d +:+ String "/" name) with ((d +:+ "/") +:+ name)
    by (by rewrite app_assoc_str).
  apply drop_chars_app.
Qed.

Lemma basename_join (d name : string) :
  contains_char "/" name = false ->
  posixpath.basename (posixpath.join d name) = name.
Proof.
  intros Hn. unfold posixpath.join. rewrite startswith_sep by done.
  destruct d as [|c d]; [by apply basename_plain|].
  cbn [is_empty orb].
  destruct (endswith "/" (String c d)) eqn:He.
  - apply endswith_sep in He as [d' ->].
    rewrite app_assoc_str. by apply basename_after_sep.
  - by apply basename_after_sep.
Qed.

Lemma basename_lower (p : string) :
  posixpath.basename (lower p) = lower (posixpath.basename p).
Proof.
  unfold posixpath.basename, rfind, slice_from.
  rewrite rfind_from_lower by apply lower_char_slash.
  apply drop_chars_lower.
Qed.

Lemma is_allowed_lower (p : string) :
  @is_allowed posix (lower p) = @is_allowed posix p.
Proof.
  unfold is_allowed. cbn [basename splitext posix_OsPath].
  by rewrite basename_lower, lower_idem.
Qed.

(** X1: on a POSIX host the classifier is blind to letter case: two paths
    that are equal once lowered are classified alike. *)
Theorem is_allowed_case_insensitive (p q : string) :
  lower p = lower q -> @is_allowed posix p = @is_allowed posix q.
Proof.
  intros Heq. by rewrite <- (is_allowed_lower p), Heq, is_allowed_lower.
Qed.

(** X2: on a POSIX host a file is classified by its name alone: joined to
    any folder, a name without a separator is classified as the bare name. *)
Theorem is_allowed_ignores_directory (d name : string) :
  contains_char "/" name = false ->
  @is_allowed posix (posixpath.join d name) = @is_allowed posix name.
Proof.
  intros Hn. unfold is_allowed. cbn [basename splitext posix_OsPath].
  by rewrite basename_join, basename_plain.
Qed.

Lemma _splitext_loop_result (p : string) (i d : Z) (fuel : nat) (r e : string) :
  posixpath._splitext_loop p i d fuel = Some (r, e) ->
  r = slice_to d p /\ e = slice_from d p.
Proof.
  revert i. induction fuel as [|fuel IH]; intros i; simpl; [done|].
  destruct (i <? d); [|done].
  destruct (negb _); [by intros [= <- <-]|apply IH].
Qed.

Lemma splitext_parts (s r e : string) :
  posixpath.splitext s = (r, e) -> s = r +:+ e.
Proof.
  unfold posixpath.splitext, posixpath._splitext.
  destruct (if _ >? _ then _ else None) as [[r' e']|] eqn:Hl.
  - destruct (_ >? _); [|done].
    apply _splitext_loop_result in Hl as [-> ->]. intros [= <- <-].
    unfold slice_to, slice_from. by rewrite take_drop_chars.
  - intros [= <- <-]. by rewrite app_empty_r.
Qed.

(** X3: on a POSIX host an allowed path has a reserved name, or its lowered
    name ends in one of the allowed extensions. *)
Theorem allowed_has_reserved_name_or_extension (p : string) :
  @is_allowed posix p = true ->
  lower (posixpath.basename p) ∈ ALLOWED_NAMES
  \/ exists root ext,
       ext ∈ ALLOWED_EXTS /\ lower (posixpath.basename p) = root +:+ ext.
Proof.
  unfold is_allowed, mem. cbn [basename splitext posix_OsPath].
  case_bool_decide as Hname; [by left|].
  destruct (posixpath.splitext _) as [root ext] eqn:Hs.
  intros Hext%bool_decide_eq_true. right. exists root, ext.
  split; [done|]. by apply splitext_parts.
Qed.

Lemma rfind_from_lower_bound (c : ascii) (s : string) (i found : Z) :
  found <= i -> found <= rfind_from c s i found.
Proof.
  revert i found. induction s as [|a s IH]; intros i found Hle; simpl; [lia|].
  case_bool_decide.
  - etrans; [exact Hle|]. apply IH. lia.
  - apply IH. lia.
Qed.

(** X4: on a POSIX host a name without a dot has no extension: such a file
    is allowed exactly when its lowered name is one of the reserved names. *)
Theorem is_allowed_without_dot (p : string) :
  contains_char "." (posixpath.basename p) = false ->
  @is_allowed posix p = mem (lower (posixpath.basename p)) ALLOWED_NAMES.
Proof.
  intros Hdot. unfold is_allowed. cbn [basename splitext posix_OsPath].
  destruct (mem _ ALLOWED_NAMES); [done|].
  unfold posixpath.splitext, posixpath._splitext, rfind, posixpath.extsep.
  rewrite (rfind_from_absent "." (lower _))
    by (by rewrite contains_char_lower by apply lower_char_dot).
  pose proof (rfind_from_lower_bound posixpath.sep
                (lower (posixpath.basename p)) 0 (-1)) as Hlb.
  destruct (_ >? _) eqn:Hgt; [lia|].
  vm_compute. reflexivity.
Qed.

End classifier_facts.

(** ** The natural sort, continued *)

Section natsort_order.
Import natsort.

Lemma ascii_compare_lt_trans (a b c : ascii) :
  Ascii.compare a b = Lt -> Ascii.compare b c = Lt -> Ascii.compare a c = Lt.
Proof.
  unfold Ascii.compare. rewrite !N.compare_lt_iff. apply N.lt_trans.
Qed.

Lemma string_compare_lt_trans (s1 s2 s3 : string) :
  String.compare s1 s2 = Lt -> String.compare s2 s3 = Lt ->
  String.compare s1 s3 = Lt.
Proof.
  revert s2 s3. induction s1 as [|a1 s1 IH]; intros [|a2 s2] [|a3 s3];
    simpl; try done.
  destruct (Ascii.compare a1 a2) eqn:H12; try done;
    destruct (Ascii.compare a2 a3) eqn:H23; try done.
  - apply Ascii.compare_eq_iff in H12 as ->, H23 as ->.
    assert (Ascii.compare a3 a3 = Eq) as ->
      by (unfold Ascii.compare; apply N.compare_refl).
    apply IH.
  - apply Ascii.compare_eq_iff in H12 as ->. by rewrite H23.
  - apply Ascii.compare_eq_iff in H23 as <-. by rewrite H12.
  - by rewrite (ascii_compare_lt_trans _ _ _ H12 H23).
Qed.

Lemma compare_component_eq (a b : component) :
  compare_component a b = Eq <-> a = b.
Proof.
  destruct a as [s|m], b as [t|n]; simpl; try (split; congruence).
  - split; [by intros ->%String.compare_eq_iff|].
    intros [= ->]. apply string_compare_refl.
  - rewrite N.compare_eq_iff. split; congruence.
Qed.

Lemma compare_component_antisym (a b : component) :
  compare_component b a = CompOpp (compare_component a b).
Proof.
  destruct a as [s|m], b as [t|n]; simpl; try done.
  - apply String.compare_antisym.
  - apply N.compare_antisym.
Qed.

Lemma compare_component_lt_trans (a b c : component) :
  compare_component a b = Lt -> compare_component b c = Lt ->
  compare_component a c = Lt.
Proof.
  destruct a as [s|m], b as [t|n], c as [u|k]; simpl; try done.
  - apply string_compare_lt_trans.
  - rewrite !N.compare_lt_iff. apply N.lt_trans.
Qed.

Lemma compare_tuple_eq (k1 k2 : list component) :
  compare_tuple k1 k2 = Eq <-> k1 = k2.
Proof.
  revert k2. induction k1 as [|a k1 IH]; intros [|b k2]; simpl; try done.
  destruct (compare_component a b) eqn:Hab.
  - apply compare_component_eq in Hab as ->. rewrite IH. split; congruence.
  - split; [done|]. intros [= -> _].
    assert (compare_component b b = Eq) by (by apply compare_component_eq).
    congruence.
  - split; [done|]. intros [= -> _].
    assert (compare_component b b = Eq) by (by apply compare_component_eq).
    congruence.
Qed.

Lemma compare_tuple_antisym (k1 k2 : list component) :
  compare_tuple k2 k1 = CompOpp (compare_tuple k1 k2).
Proof.
  revert k2. induction k1 as [|a k1 IH]; intros [|b k2]; simpl; try done.
  rewrite (compare_component_antisym a b).
  destruct (compare_component a b); simpl; [apply IH|done|done].
Qed.

Lemma compare_tuple_lt_trans (k1 k2 k3 : list component) :
  compare_tuple k1 k2 = Lt -> compare_tuple k2 k3 = Lt -> compare_tuple k1 k3 = Lt.
Proof.
  revert k2 k3. induction k1 as [|a k1 IH]; intros [|b k2] [|c k3];
    simpl; try done.
  destruct (compare_component a b) eqn:Hab; try done;
    destruct (compare_component b c) eqn:Hbc; try done.
  - apply compare_component_eq in Hab as ->, Hbc as ->.
    assert (compare_component c c = Eq) as -> by (by apply compare_component_eq).
    apply IH.
  - apply compare_component_eq in Hab as ->. by rewrite Hbc.
  - apply compare_component_eq in Hbc as <-. by rewrite Hab.
  - by rewrite (compare_component_lt_trans _ _ _ Hab Hbc).
Qed.

Lemma key_lt_asym (x y : string) : key_lt x y = true -> key_lt y x = false.
Proof.
  unfold key_lt. rewrite (compare_tuple_antisym (natsort_key x) (natsort_key y)).
  by destruct (compare_tuple (natsort_key x) (natsort_key y)).
Qed.

Lemma key_le_total (x y : string) : key_le x y = false -> key_le y x = true.
Proof.
  unfold key_le. rewrite !negb_false_iff, negb_true_iff. apply key_lt_asym.
Qed.

Lemma key_le_trans (x y z : string) :
  key_le x y = true -> key_le y z = true -> key_le x z = true.
Proof.
  unfold key_le, key_lt. rewrite !negb_true_iff.
  rewrite (compare_tuple_antisym (natsort_key x) (natsort_key y)).
  rewrite (compare_tuple_antisym (natsort_key y) (natsort_key z)).
  rewrite (compare_tuple_antisym (natsort_key x) (natsort_key z)).
  destruct (compare_tuple (natsort_key x) (natsort_key y)) eqn:Hxy; [| |done].
  - apply compare_tuple_eq in Hxy as ->. done.
  - destruct (compare_tuple (natsort_key y) (natsort_key z)) eqn:Hyz; [| |done].
    + apply compare_tuple_eq in Hyz as <-. by rewrite Hxy.
    + by rewrite (compare_tuple_lt_trans _ _ _ Hxy Hyz).
Qed.

Lemma insert_perm (x : string) (l : list string) : insert x l ≡ₚ x :: l.
Proof.
  induction l as [|y l IH]; [done|]. simpl.
  destruct (key_lt y x); [|done]. rewrite IH. apply Permutation_swap.
Qed.

Lemma natsorted_perm (l : list string) : natsorted l ≡ₚ l.
Proof.
  induction l as [|x l IH]; [done|].
  unfold natsorted in *. simpl. by rewrite insert_perm, IH.
Qed.

Lemma insert_in_key_order (x : string) (l : list string) :
  in_key_order l = true -> in_key_order (insert x l) = true.
Proof.
  induction l as [|y l IH]; [done|]. intros Hl. simpl insert.
  destruct (key_lt y x) eqn:Hyx.
  - assert (Hl' : in_key_order l = true).
    { destruct l; [done|]. simpl in Hl. by apply andb_true_iff in Hl as [_ ?]. }
    specialize (IH Hl'). destruct l as [|z l].
    + simpl. unfold key_le. by rewrite (key_lt_asym _ _ Hyx).
    + simpl insert in *. simpl in Hl. apply andb_true_iff in Hl as [Hyz _].
      destruct (key_lt z x).
      * change (key_le y z && in_key_order (z :: insert x l) = true).
        by rewrite Hyz, IH.
      * change (key_le y x && in_key_order (x :: z :: l) = true).
        rewrite IH. unfold key_le. by rewrite (key_lt_asym _ _ Hyx).
  - change (key_le x y && in_key_order (y :: l) = true).
    unfold key_le. by rewrite Hyx, Hl.
Qed.

Lemma natsorted_in_key_order (l : list string) : in_key_order (natsorted l) = true.
Proof.
  induction l as [|x l IH]; [done|]. by apply insert_in_key_order.
Qed.

Lemma in_key_order_Sorted (l : list string) :
  in_key_order l = true -> Sorted (fun x y => key_le x y = true) l.
Proof.
  induction l as [|x l IH]; [constructor|]. intros Hl.
  destruct l as [|y l]; [by repeat constructor|].
  simpl in Hl. apply andb_true_iff in Hl as [Hxy Hl].
  constructor; [by apply IH|by constructor].
Qed.

(** X5: the natural sort returns a list of ASCII names rearranged and in
    key order: no element has a smaller key than an element that comes
    before it. *)
Theorem natsorted_sorts (l : list string) :
  ascii_names l = true ->
  natsorted l ≡ₚ l
  /\ forall i j x y, (i < j)%nat ->
       natsorted l !! i = Some x -> natsorted l !! j = Some y ->
       key_lt y x = false.
Proof.
  intros _. split; [apply natsorted_perm|].
  pose proof (in_key_order_Sorted _ (natsorted_in_key_order l)) as Hs.
  apply Sorted_StronglySorted in Hs;
    [|intros x y z; apply key_le_trans].
  induction Hs as [|a t Hs IH Hall]; intros i j x y Hij Hi Hj.
  { by rewrite lookup_nil in Hi. }
  destruct j as [|j]; [lia|]. simpl in Hj.
  destruct i as [|i].
  - simpl in Hi. injection Hi as ->.
    rewrite List.Forall_forall in Hall.
    specialize (Hall y). unfold key_le in Hall. apply negb_true_iff, Hall.
    apply list_elem_of_In, list_elem_of_lookup. eauto.
  - simpl in Hi. apply (IH i j); [lia|done|done].
Qed.

Lemma natsorted_fixed (l : list string) :
  in_key_order l = true -> natsorted l = l.
Proof.
  induction l as [|x l IH]; [done|]. intros Hl.
  unfold natsorted in *. simpl foldr.
  destruct l as [|y l]; [done|].
  simpl in Hl. apply andb_true_iff in Hl as [Hxy Hl].
  rewrite (IH Hl). simpl. unfold key_le in Hxy. apply negb_true_iff in Hxy.
  by rewrite Hxy.
Qed.

(** X6: a list of ASCII names that is already in key order is returned as
    it is, elements of equal key included. *)
Theorem natsorted_keeps_sorted (l : list string) :
  ascii_names l = true -> in_key_order l = true -> natsorted l = l.
Proof. intros _. apply natsorted_fixed. Qed.

(** X7: the sort of the selection is idempotent. *)
Theorem sort_files_idempotent (selected_files : list string) :
  sort_files (sort_files selected_files) = sort_files selected_files.
Proof.
  unfold sort_files. destruct selected_files as [|x l]; [done|].
  destruct (natsorted (x :: l)) as [|y l'] eqn:Hs; [done|].
  rewrite <- Hs. apply natsorted_fixed, natsorted_in_key_order.
Qed.

End natsort_order.

Section natsort_numbers.
Import natsort.

(** A block of characters of one kind, followed by nothing or by a
    character of the other kind, is one run. *)
Lemma runs_block (k : bool) (b rest : string) :
  b <> "" ->
  (forall c, c ∈ pystr.chars b -> is_digit c = k) ->
  match rest with
  | EmptyString => True
  | String a _ => is_digit a = negb k
  end ->
  runs (b +:+ rest) = (k, b) :: runs rest.
Proof.
  intros Hne Hb Hrest. induction b as [|c b IH]; [done|]. clear Hne.
  assert (Hc : is_digit c = k) by (apply Hb; simpl; by left).
  assert (Hb' : forall c', c' ∈ pystr.chars b -> is_digit c' = k).
  { intros c' Hc'. apply Hb. simpl. by right. }
  rewrite app_cons. destruct b as [|c2 b].
  - change ("" +:+ rest) with rest. rewrite runs_cons.
    destruct rest as [|a t]; [simpl; by rewrite Hc|].
    destruct (runs_head a t) as (r & rest' & Hr). rewrite Hr, Hrest, Hc.
    by destruct k.
  - rewrite runs_cons, IH by done. rewrite Hc.
    by destruct k.
Qed.

Lemma has_digit_false (s : string) :
  has_digit s = false -> forall c, c ∈ pystr.chars s -> is_digit c = false.
Proof.
  unfold has_digit. intros Hs c Hc. apply not_true_is_false. intros Hd.
  assert (existsb is_digit (pystr.chars s) = true); [|congruence].
  apply existsb_exists. exists c. split; [by apply list_elem_of_In|done].
Qed.

Lemma all_digits_true (s : string) :
  all_digits s = true -> forall c, c ∈ pystr.chars s -> is_digit c = true.
Proof.
  unfold all_digits. intros Hs c Hc.
  eapply forallb_forall in Hs; [done|]. by apply list_elem_of_In.
Qed.

Lemma runs_digits_then_text (d q : string) :
  d <> "" -> all_digits d = true -> has_digit q = false ->
  runs (d +:+ q)
  = (true, d) :: match q with EmptyString => [] | _ => [(false, q)] end.
Proof.
  intros Hd Hall Hq. rewrite (runs_block true d q).
  - f_equal. destruct q as [|a q]; [done|]. by apply runs_no_digit.
  - done.
  - by apply all_digits_true.
  - destruct q as [|a q]; [done|]. apply (has_digit_false _ Hq). simpl. by left.
Qed.

(** The key of a name made of a text without digits, a number and a text
    without digits. *)
Lemma natsort_key_numbered (p d q : string) :
  has_digit p = false -> d <> "" -> all_digits d = true -> has_digit q = false ->
  natsort_key (p +:+ d +:+ q)
  = Str p :: Int (int_of_digits d)
      :: match q with EmptyString => [] | _ => [Str q] end.
Proof.
  intros Hp Hd Hall Hq. unfold natsort_key.
  destruct p as [|c p].
  - change ("" +:+ d +:+ q) with (d +:+ q).
    rewrite runs_digits_then_text by done. by destruct q.
  - rewrite (runs_block false (String c p) (d +:+ q)).
    + rewrite runs_digits_then_text by done. by destruct q.
    + done.
    + by apply has_digit_false.
    + destruct d as [|a d]; [done|]. rewrite app_cons.
      apply (all_digits_true _ Hall). simpl. by left.
Qed.

(** X8: names that differ only in an embedded number are ordered by the
    value of the number, not by its digits read as text. *)
Theorem natural_order_of_numbers (p d1 d2 q : string) :
  has_digit p = false -> has_digit q = false ->
  d1 <> "" -> all_digits d1 = true ->
  d2 <> "" -> all_digits d2 = true ->
  compare_tuple (natsort_key (p +:+ d1 +:+ q)) (natsort_key (p +:+ d2 +:+ q))
  = N.compare (int_of_digits d1) (int_of_digits d2).
Proof.
  intros Hp Hq Hd1 Ha1 Hd2 Ha2. rewrite !natsort_key_numbered by done.
  cbn [compare_tuple compare_component]. rewrite string_compare_refl.
  destruct (N.compare _ _); [|done|done].
  destruct q as [|a q]; [done|].
  cbn [compare_tuple compare_component]. by rewrite string_compare_refl.
Qed.

(** X9: leading zeros of an embedded number do not count: the key is that
    of the name without them. *)
Theorem leading_zero_is_ignored (p d q : string) :
  has_digit p = false -> has_digit q = false ->
  d <> "" -> all_digits d = true ->
  natsort_key (p +:+ ("0" +:+ d) +:+ q) = natsort_key (p +:+ d +:+ q).
Proof.
  intros Hp Hq Hd Ha. rewrite !natsort_key_numbered; try done.
Qed.

End natsort_numbers.

(** ** The concatenator, continued *)

Section concatenator_frame.
Context `{OsPath}.
Import pystr.

Lemma open_write_cases (w : World) (p text : string) :
  (exists e, open_write w p text = inl e)
  \/ open_write w p text
     = inr {| fs := <[p := Regular true (Some text)]> (fs w); stdout := stdout w |}.
Proof.
  unfold open_write. destruct (fs w !! p) as [[|[] u]|]; eauto.
Qed.

Lemma finish_cases (w1 : World) (output_path text : string) :
  (exists e, finish w1 output_path text = (w1, inl e))
  \/ finish w1 output_path text
     = ({| fs := <[output_path := Regular true (Some text)]> (fs w1);
           stdout := stdout w1 ++ ["Concatenated file saved to: " +:+ output_path] |},
        inr ()).
Proof.
  unfold finish.
  destruct (open_write_cases w1 output_path text) as [[e ->]| ->]; eauto.
Qed.

(** X12: concatenation follows the list: when the runs over two lists
    succeed, the run over the two lists joined succeeds, and what it writes
    is what the first wrote followed by what the second wrote. *)
Theorem concatenate_file_list_app (w w1 w2 : World) (l1 l2 : list string)
    (output_path : string) :
  concatenate_file_list w l1 output_path = (w1, inr ()) ->
  concatenate_file_list w l2 output_path = (w2, inr ()) ->
  exists w3 t1 t2,
    concatenate_file_list w (l1 ++ l2) output_path = (w3, inr ())
    /\ fs w1 !! output_path = Some (Regular true (Some t1))
    /\ fs w2 !! output_path = Some (Regular true (Some t2))
    /\ fs w3 !! output_path = Some (Regular true (Some (t1 +:+ t2))).
Proof.
  destruct l1 as [|q1 l1]; [done|]. destruct l2 as [|q2 l2]; [done|].
  rewrite !concatenate_closed_form by done.
  intros H1 H2.
  exists (finish (reported w ((q1 :: l1) ++ q2 :: l2)) output_path
            (String.concat "" (emitted w <$> (q1 :: l1) ++ q2 :: l2))).1,
    (String.concat "" (emitted w <$> q1 :: l1)),
    (String.concat "" (emitted w <$> q2 :: l2)).
  rewrite (finish_written _ _ _ _ H1), (finish_written _ _ _ _ H2).
  rewrite fmap_app, concat_empty_app.
  assert (Hok : exists w3, finish (reported w ((q1 :: l1) ++ q2 :: l2)) output_path
            (String.concat "" (emitted w <$> q1 :: l1)
             +:+ String.concat "" (emitted w <$> q2 :: l2)) = (w3, inr ())).
  { revert H1. unfold finish, open_write. simpl.
    destruct (fs w !! output_path) as [[|[] u]|]; intros [=]; eauto. }
  destruct Hok as [w3 Hw3]. rewrite Hw3. simpl.
  split; [done|]. split; [done|]. split; [done|].
  by apply (finish_written _ _ _ _ Hw3).
Qed.

End concatenator_frame.

(** ** The list-file importer, continued *)

Section importer_more.
Context `{OsPath} `{ListFileIO}.
Import pystr.

Lemma present_resolved (base_dir : string) (lines : list string) (c : string) :
  c ∈ (resolved base_dir <$> List.filter (present base_dir) lines) ->
  is_allowed c = true /\ isfile c = true.
Proof.
  intros (raw & -> & Hraw)%list_elem_of_fmap.
  apply list_elem_of_In, filter_In in Hraw as [_ Hp].
  unfold present in Hp. by apply andb_true_iff in Hp as [[_ ?]%andb_true_iff ?].
Qed.

(** X13: every path the importer reports as added or as already present
    passed the type classifier and is an existing regular file. *)
Theorem imported_paths_are_allowed_files (selected_files : list string)
    (list_path : string) (dlg : list dialog) (r : report) (p : string) :
  parse_file_list selected_files list_path = (dlg, inr r) ->
  p ∈ added_paths r ++ already_present r ->
  is_allowed p = true /\ isfile p = true.
Proof.
  intros (lines & last_err & Hr & -> & ->)%parse_file_list_returns.
  rewrite import_loop_closed.
  cbn [added_paths already_present empty_report].
  rewrite reconcile_loop_perm. simpl. apply present_resolved.
Qed.

Lemma reconcile_loop_sublist (existing : gset string) (cs : list string)
    (st : list string * list string) :
  exists a b,
    foldl (reconcile existing) st cs = (st.1 ++ a, st.2 ++ b)
    /\ a `sublist_of` cs /\ b `sublist_of` cs.
Proof.
  revert st. induction cs as [|c cs IH]; intros st.
  { exists [], []. rewrite !app_nil_r. by destruct st. }
  simpl. destruct (IH (reconcile existing st c)) as (a & b & -> & Ha & Hb).
  destruct (reconcile_cases existing st c) as [[-> _]|(-> & _)]; simpl.
  - exists a, (c :: b). rewrite <- app_assoc. split; [done|].
    split; [by apply sublist_cons|by apply sublist_skip].
  - exists (c :: a), b. rewrite <- app_assoc. split; [done|].
    split; [by apply sublist_skip|by apply sublist_cons].
Qed.

Lemma filter_sublist (f : string -> bool) (l : list string) :
  List.filter f l `sublist_of` l.
Proof.
  induction l as [|x l IH]; [done|]. simpl.
  destruct (f x); [by apply sublist_skip|by apply sublist_cons].
Qed.

(** X14: the importer keeps the order of the list file: the added paths,
    and the paths already present, are the resolved candidates of lines of
    the file, in the order of those lines. *)
Theorem imported_paths_in_file_order (selected_files : list string)
    (list_path : string) (lines : list string) (last_err : option exception)
    (dlg : list dialog) (r : report) :
  read_lines list_path encodings None = inr (lines, last_err) ->
  parse_file_list selected_files list_path = (dlg, inr r) ->
  added_paths r `sublist_of` (resolved (dirname list_path) <$> lines)
  /\ already_present r `sublist_of` (resolved (dirname list_path) <$> lines).
Proof.
  intros Hr. rewrite (parse_file_list_lines _ _ _ _ Hr). intros [= _ <-].
  rewrite import_loop_closed.
  cbn [added_paths already_present empty_report].
  destruct (reconcile_loop_sublist (list_to_set (norm <$> selected_files))
              (resolved (dirname list_path)
                 <$> List.filter (present (dirname list_path)) lines) ([], []))
    as (a & b & -> & Ha & Hb).
  simpl. split; (etrans; [eassumption|]);
    apply fmap_sublist, filter_sublist.
Qed.

Lemma import_loop_effective (base_dir : string) (existing : gset string)
    (lines : list string) (r : report) :
  foldl (import_line base_dir existing) r lines
  = foldl (import_line base_dir existing) r (List.filter effective lines).
Proof.
  revert r. induction lines as [|raw lines IH]; intros r; [done|].
  simpl. destruct (effective raw) eqn:Heff; simpl.
  - apply IH.
  - rewrite import_line_unfold, Heff. apply IH.
Qed.

(** X15: blank lines and comment lines have no effect: two list files in
    one directory whose other lines agree give the same report. *)
Theorem blank_and_comment_lines_are_ignored (selected_files : list string)
    (path1 path2 : string) (lines1 lines2 : list string)
    (err1 err2 : option exception) :
  read_lines path1 encodings None = inr (lines1, err1) ->
  read_lines path2 encodings None = inr (lines2, err2) ->
  dirname path1 = dirname path2 ->
  List.filter effective lines1 = List.filter effective lines2 ->
  (parse_file_list selected_files path1).2
  = (parse_file_list selected_files path2).2.
Proof.
  intros H1 H2 Hdir Hlines.
  rewrite (parse_file_list_lines _ _ _ _ H1), (parse_file_list_lines _ _ _ _ H2).
  simpl. f_equal. rewrite Hdir.
  by rewrite import_loop_effective, Hlines, <- import_loop_effective.
Qed.

Lemma read_lines_skips (list_path : string) (before rest : list string)
    (last_err : option exception) :
  Forall (fun enc => decode_failure (open_readlines list_path enc)) before ->
  exists err, read_lines list_path (before ++ rest) last_err
              = read_lines list_path rest err.
Proof.
  intros Hall. revert last_err. induction Hall as [|enc before [m Hm] Hall IH];
    intros last_err; [by eauto|].
  simpl. rewrite Hm. apply IH.
Qed.

(** X16: the encodings are tried in order and the first that does not fail
    to decode decides: its lines are imported without any dialog, or its
    error, one that is not a decoding error, is raised with no report. *)
Theorem first_usable_encoding_decides (selected_files : list string)
    (list_path : string) (before after : list string) (enc : string) :
  encodings = before ++ enc :: after ->
  Forall (fun e => decode_failure (open_readlines list_path e)) before ->
  match open_readlines list_path enc with
  | inr lines =>
      parse_file_list selected_files list_path
      = ([], inr (foldl (import_line (dirname list_path)
                           (list_to_set (norm <$> selected_files)))
                    empty_report lines))
  | inl e =>
      decode_failure (inl e)
      \/ parse_file_list selected_files list_path = ([], inl e)
  end.
Proof.
  intros Henc Hall.
  destruct (read_lines_skips list_path before (enc :: after) None Hall)
    as [err Hskip].
  destruct (open_readlines list_path enc) as [e|lines] eqn:Hopen.
  - destruct e as [m|m|m|m|m|m];
      try (right; unfold parse_file_list; rewrite Henc, Hskip; simpl;
           by rewrite Hopen).
    left. by exists m.
  - assert (Hr : read_lines list_path encodings None = inr (lines, None)).
    { rewrite Henc, Hskip. simpl. by rewrite Hopen. }
    by rewrite (parse_file_list_lines _ _ _ _ Hr).
Qed.

(** X29: the chain of encodings ends with latin-1.  When the read under
    latin-1 does not fail to decode, as it never does with CPython's codec,
    which has a character for every byte, the call shows no dialog: it
    returns a report, or it raises an error that is not a decoding error.
    The box "Could not decode list file" is then not reached. *)
Theorem latin1_ends_the_chain (selected_files : list string)
    (list_path : string) :
  ~ decode_failure (open_readlines list_path "latin-1") ->
  exists res,
    parse_file_list selected_files list_path = ([], res)
    /\ forall m, res <> inl (UnicodeDecodeError m).
Proof.
  intros Hl. unfold parse_file_list, encodings.
  set (preferred := if is_empty _ then _ else _).
  cbn [read_lines].
  destruct (open_readlines list_path "utf-8-sig") as [[m|m|m|m|m|m]|l1];
    try (eexists; split; [reflexivity|done]).
  destruct (open_readlines list_path preferred) as [[m2|m2|m2|m2|m2|m2]|l2];
    try (eexists; split; [reflexivity|done]).
  destruct (open_readlines list_path "cp1252") as [[m3|m3|m3|m3|m3|m3]|l3];
    try (eexists; split; [reflexivity|done]).
  destruct (open_readlines list_path "latin-1") as [[m4|m4|m4|m4|m4|m4]|l4]
    eqn:H4; try (eexists; split; [reflexivity|done]).
  exfalso. apply Hl. by exists m4.
Qed.

End importer_more.

Section importer_posix.
Import pystr.
Variables (ps : posixpath.process) (isf : string -> bool).
Context `{ListFileIO}.
Local Abbreviation posix := (posix_OsPath ps isf).

Lemma startswith_sep_cons (s : string) : startswith "/" (String "/" s) = true.
Proof. unfold startswith. rewrite prefix_one. by apply bool_decide_eq_true_2. Qed.

Lemma startswith_sep_inv (s : string) :
  startswith "/" s = true -> exists t, s = String "/" t.
Proof.
  unfold startswith. rewrite prefix_one. destruct s as [|a s]; [done|].
  intros <-%bool_decide_eq_true. eauto.
Qed.

Lemma normpath_absolute (x : string) :
  posixpath.isabs x = true -> posixpath.isabs (posixpath.normpath x) = true.
Proof.
  unfold posixpath.isabs. intros Hx. unfold posixpath.normpath.
  destruct (startswith_sep_inv x Hx) as [t ->]. cbn [is_empty]. rewrite Hx.
  set (k := if _ && _ then 2 else 1).
  assert (Hk : exists n, Z.to_nat k = S n).
  { unfold k. destruct (_ && _); [by exists 1%nat|by exists 0%nat]. }
  destruct Hk as [n ->]. cbn [posixpath.repeat_sep]. rewrite app_cons.
  cbn [is_empty]. apply startswith_sep_cons.
Qed.

Lemma abspath_absolute (p : string) :
  posixpath.isabs (posixpath.cwd ps) = true ->
  posixpath.isabs (posixpath.abspath ps p) = true.
Proof.
  intros Hcwd. unfold posixpath.abspath.
  destruct (posixpath.isabs p) eqn:Hp; cbn [negb]; [by apply normpath_absolute|].
  apply normpath_absolute. unfold posixpath.join, posixpath.isabs in *.
  rewrite Hp. destruct (startswith_sep_inv _ Hcwd) as [t ->].
  destruct (_ || _); rewrite app_cons; apply startswith_sep_cons.
Qed.

(** X17: on a POSIX host whose working directory is absolute, every path
    the importer reports as added or as already present is absolute. *)
Theorem imported_paths_are_absolute (selected_files : list string)
    (list_path : string) (dlg : list dialog) (r : report) (p : string) :
  posixpath.isabs (posixpath.cwd ps) = true ->
  @parse_file_list posix _ selected_files list_path = (dlg, inr r) ->
  p ∈ added_paths r ++ already_present r ->
  posixpath.isabs p = true.
Proof.
  intros Hcwd (lines & last_err & Hr & -> & ->)%parse_file_list_returns.
  rewrite import_loop_closed.
  cbn [added_paths already_present empty_report].
  rewrite reconcile_loop_perm. simpl.
  intros (raw & -> & _)%list_elem_of_fmap.
  unfold resolved. cbn [abspath posix_OsPath]. by apply abspath_absolute.
Qed.

End importer_posix.

(** ** The folder mode *)

Section folder_facts.
Context `{OsPath} `{OsDir}.

Lemma filter_none (g : string -> bool) (l : list string) :
  (forall f, f ∈ l -> g f = false) -> List.filter g l = [].
Proof.
  induction l as [|f l IH]; [done|]. intros Hnone. simpl.
  rewrite Hnone by (by left). apply IH. intros h Hh. apply Hnone. by right.
Qed.

(** X18: in folder mode the files read are the names of the listing that
    are of an allowed type and are regular files, each joined to the
    folder, and, these names being ASCII, in natural key order. *)
Theorem folder_mode_reads_kept_names_in_order (w : World)
    (folder_path output_path : string) (names : list string) :
  isdir folder_path = true ->
  listdir folder_path = inr names ->
  ascii_names (List.filter (kept folder_path) names) = true ->
  exists files,
    files ≡ₚ List.filter (kept folder_path) names
    /\ in_key_order files = true
    /\ concatenate_text_files w folder_path output_path
       = concatenate_file_list w (join folder_path <$> files) output_path.
Proof.
  intros Hdir Hls _.
  exists (natsort.natsorted (List.filter (kept folder_path) names)).
  split; [apply natsorted_perm|]. split; [apply natsorted_in_key_order|].
  unfold concatenate_text_files. by rewrite Hdir, Hls.
Qed.

(** X19: on a folder that can be listed, folder mode raises the
    [ValueError] of the empty list, leaving the world as it is, exactly
    when no name of the listing is an allowed regular file. *)
Theorem folder_mode_without_files (w : World) (folder_path output_path : string)
    (names : list string) :
  isdir folder_path = true ->
  listdir folder_path = inr names ->
  concatenate_text_files w folder_path output_path
  = (w, inl (ValueError "No files to concatenate."))
  <-> forall f, f ∈ names -> kept folder_path f = false.
Proof.
  intros Hdir Hls. unfold concatenate_text_files. rewrite Hdir, Hls. simpl.
  set (files := List.filter (kept folder_path) names).
  split.
  - intros Hrun f Hf. apply not_true_is_false. intros Hk.
    assert (Hin : f ∈ natsort.natsorted files).
    { rewrite natsorted_perm. apply list_elem_of_In, filter_In.
      split; [by apply list_elem_of_In|done]. }
    destruct (natsort.natsorted files) as [|g l] eqn:Hs.
    { by apply elem_of_nil in Hin. }
    rewrite concatenate_closed_form in Hrun by done.
    destruct (finish_cases (reported w (join folder_path <$> g :: l)) output_path
      (String.concat "" (emitted w <$> (join folder_path <$> g :: l))))
      as [[e He]|He]; [|by rewrite He in Hrun].
    unfold finish in He, Hrun.
    destruct (open_write _ _ _); [|done]. by simplify_eq.
  - intros Hnone.
    unfold files. by rewrite filter_none.
Qed.

End folder_facts.

(** ** The window *)

Section window_facts.
Context `{OsPath} `{ListFileIO} `{OsDir}.
Import gui.

Lemma insert_END_items (lb : tk.listbox) (item : string) :
  (tk.insert_END lb item).*1 = lb.*1 ++ [item].
Proof. unfold tk.insert_END. by rewrite fmap_app. Qed.

Lemma insert_END_loop_items (lb : tk.listbox) (items : list string) :
  (foldl tk.insert_END lb items).*1 = lb.*1 ++ items.
Proof.
  revert lb. induction items as [|x items IH]; intros lb; simpl.
  - by rewrite app_nil_r.
  - by rewrite IH, insert_END_items, <- app_assoc.
Qed.

Lemma selection_clear_all_items (lb : tk.listbox) :
  (tk.selection_clear_all lb).*1 = lb.*1.
Proof.
  unfold tk.selection_clear_all. rewrite <- list_fmap_compose.
  by apply list_fmap_ext.
Qed.

Lemma consistent_update (st : window) (sf : list string) (lb : tk.listbox) :
  lb.*1 = sf -> NoDup sf ->
  consistent (update_file_count (with_selection st sf lb)).
Proof. by repeat split. Qed.

(** The loop of [add_files]. *)
Lemma add_loop (files sf : list string) (lb : tk.listbox) (skipped : nat) :
  exists new,
    foldl add_one (sf, lb, skipped) files
    = (sf ++ new, foldl tk.insert_END lb new,
       (skipped + length (List.filter (fun f => negb (is_allowed f)) files))%nat)
    /\ (NoDup sf -> NoDup (sf ++ new))
    /\ (forall f, f ∈ new <-> f ∈ files /\ is_allowed f = true /\ f ∉ sf).
Proof.
  revert sf lb skipped. induction files as [|f files IH]; intros sf lb skipped.
  { exists []. rewrite app_nil_r, Nat.add_0_r.
    split; [done|]. split; [done|]. intros f.
    split; [by intros ?%elem_of_nil|by intros [?%elem_of_nil _]]. }
  cbn [foldl]. unfold add_one at 2. cbn [List.filter].
  destruct (is_allowed f) eqn:Hf; cbn [negb].
  - case_bool_decide as Hin.
    + destruct (IH sf lb skipped) as (new & -> & Hnd & Hnew).
      exists new. split; [done|]. split; [done|].
      intros g. rewrite Hnew, elem_of_cons.
      split; [intros (?&?&?); auto|intros ([->|?]&?&?); [done|auto]].
    + destruct (IH (sf ++ [f]) (tk.insert_END lb f) skipped)
        as (new & -> & Hnd & Hnew).
      exists (f :: new). split; [by rewrite <- app_assoc|]. split.
      * intros Hsf.
        replace (sf ++ f :: new) with ((sf ++ [f]) ++ new)
          by (by rewrite <- app_assoc).
        apply Hnd. apply NoDup_app. split; [done|].
        split; [|apply NoDup_singleton].
        intros x Hx ->%list_elem_of_singleton. done.
      * intros g. rewrite !elem_of_cons, Hnew, elem_of_app, list_elem_of_singleton.
        destruct (decide (g = f)) as [->|Hne].
        -- split; [intros _; split; [by left|by split]|intros _; by left].
        -- split.
           ++ intros [?|(?&?&Hn)]; [done|]. split; [by right|]. split; [done|].
              intros ?. apply Hn. by left.
           ++ intros ([?|?]&?&?); [done|]. right. split; [done|]. split; [done|].
              by intros [?|?].
  - destruct (IH sf lb (S skipped)) as (new & -> & Hnd & Hnew).
    exists new. split; [f_equal; simpl; lia|]. split; [done|].
    intros g. rewrite Hnew, elem_of_cons.
    split; [intros (?&?&?); auto|intros ([->|?]&?&?); [congruence|auto]].
Qed.

(** X20: [add_files] keeps what was selected, in place, and adds behind it
    exactly the chosen files of an allowed type that were not selected; it
    tells about skipped files exactly when a chosen file was not allowed. *)
Theorem add_files_adds_allowed_new_files (files : list string) (st : window) :
  selected_files st `prefix_of` selected_files (add_files files st)
  /\ (forall f, f ∈ selected_files (add_files files st)
        <-> f ∈ selected_files st \/ (f ∈ files /\ is_allowed f = true))
  /\ (dialogs (add_files files st) = dialogs st
      <-> forall f, f ∈ files -> is_allowed f = true).
Proof.
  unfold add_files.
  destruct (add_loop files (selected_files st) (file_listbox st) 0)
    as (new & -> & _ & Hnew).
  set (k := length _).
  assert (Hk : k = 0%nat <-> forall f, f ∈ files -> is_allowed f = true).
  { unfold k. clear. induction files as [|f files IH]; simpl.
    - split; [by intros _ f ?%elem_of_nil|done].
    - destruct (is_allowed f) eqn:Hf; simpl.
      + rewrite IH. split.
        * intros Hall g [->|Hg]%elem_of_cons; auto.
        * intros Hall g Hg. apply Hall. by right.
      + split; [done|]. intros Hall. rewrite Hall in Hf; [done|by left]. }
  assert (Hsel : forall s, selected_files s = selected_files st ++ new ->
    selected_files st `prefix_of` selected_files s
    /\ (forall f, f ∈ selected_files s
          <-> f ∈ selected_files st \/ (f ∈ files /\ is_allowed f = true))).
  { intros s ->. split; [by eexists|].
    intros f. rewrite elem_of_app, Hnew.
    destruct (decide (f ∈ selected_files st)); [split; by auto|].
    split; [intros [?|(?&?&?)]; auto|intros [?|[? ?]]; auto]. }
  simpl (0 + k)%nat. destruct k as [|k].
  - destruct (Hsel (update_file_count (with_selection st
      (selected_files st ++ new) (foldl tk.insert_END (file_listbox st) new))))
      as [? ?]; [done|].
    split; [done|]. split; [done|]. split; [intros _; by apply Hk|done].
  - destruct (Hsel (show (update_file_count (with_selection st
      (selected_files st ++ new) (foldl tk.insert_END (file_listbox st) new)))
      [showinfo "Some files skipped"
         ("Skipped " +:+ str_of_nat (S k) +:+ " file(s) not in allowed types.")]))
      as [? ?]; [done|].
    split; [done|]. split; [done|]. simpl. split.
    + intros Hd. apply (f_equal length) in Hd. rewrite length_app in Hd.
      simpl in Hd. lia.
    + intros Hall. apply Hk in Hall. done.
Qed.

Lemma add_files_consistent (files : list string) (st : window) :
  consistent st -> consistent (add_files files st).
Proof.
  intros (Hm & Hnd & Hs). unfold add_files.
  destruct (add_loop files (selected_files st) (file_listbox st) 0)
    as (new & -> & Hnd' & _).
  assert (Hc : consistent (update_file_count (with_selection st
            (selected_files st ++ new)
            (foldl tk.insert_END (file_listbox st) new)))).
  { apply consistent_update; [|by auto].
    by rewrite insert_END_loop_items, Hm. }
  destruct (0 + _)%nat; [done|]. exact Hc.
Qed.

End window_facts.

Section window_selection.
Context `{OsPath} `{ListFileIO} `{OsDir}.
Import gui.

Lemma foldl_rev_foldr {A B} (f : A -> B -> A) (a : A) (l : list B) :
  foldl f a (rev l) = foldr (fun x acc => f acc x) a l.
Proof.
  induction l as [|x l IH]; [done|]. simpl. by rewrite foldl_app, IH.
Qed.

Lemma filter_sublist_gen {A} (f : A -> bool) (l : list A) :
  List.filter f l `sublist_of` l.
Proof.
  induction l as [|x l IH]; [done|]. simpl.
  destruct (f x); [by apply sublist_skip|by apply sublist_cons].
Qed.

(** The loop of [remove_selected], from the highest selected index down:
    below [pre] nothing is touched. *)
Lemma remove_loop (pre lb : tk.listbox) :
  foldr (fun i acc => remove_one acc i) (Some (pre.*1 ++ lb.*1, pre ++ lb))
    (tk.curselection_from (length pre) lb)
  = Some (pre.*1 ++ (List.filter (fun it => negb it.2) lb).*1,
          pre ++ List.filter (fun it => negb it.2) lb).
Proof.
  revert pre. induction lb as [|[x s] lb IH]; intros pre; [done|].
  specialize (IH (pre ++ [(x, s)])).
  rewrite length_app, Nat.add_1_r, fmap_app, <- !app_assoc in IH.
  change ([(x, s)].*1 ++ lb.*1) with (x :: lb.*1) in IH.
  change ([(x, s)] ++ lb) with ((x, s) :: lb) in IH.
  rewrite fmap_cons. change ((x, s).1) with x.
  destruct s.
  - change (tk.curselection_from (length pre) ((x, true) :: lb))
      with (length pre :: tk.curselection_from (S (length pre)) lb).
    cbn [foldr]. rewrite IH. cbn [List.filter negb snd].
    unfold remove_one, pylist.del, tk.delete.
    change ([(x, true)] ++ ?l) with ((x, true) :: l).
    change ([(x, true)].*1 ++ ?l) with (x :: l).
    rewrite delete_middle.
    replace (length pre) with (length pre.*1) by apply length_fmap.
    rewrite list_lookup_middle by done. by rewrite delete_middle.
  - change (tk.curselection_from (length pre) ((x, false) :: lb))
      with (tk.curselection_from (S (length pre)) lb).
    rewrite IH. cbn [List.filter negb snd]. by rewrite fmap_cons.
Qed.

Lemma curselection_unselected (n : nat) (lb : tk.listbox) :
  tk.curselection_from n (List.filter (fun it => negb it.2) lb) = [].
Proof.
  revert n. induction lb as [|[x []] lb IH]; intros n; simpl; [done|apply IH..].
Qed.

Lemma curselection_cleared (n : nat) (lb : tk.listbox) :
  tk.curselection_from n (tk.selection_clear_all lb) = [].
Proof.
  revert n. induction lb as [|[x s] lb IH]; intros n; simpl; [done|apply IH].
Qed.

(** X21: when the listbox shows the selection, [remove_selected] raises no
    [IndexError] and removes exactly the selected items: the other items
    stay, in their order, and nothing is selected afterwards. *)
Theorem remove_selected_removes_selected (st : window) :
  (file_listbox st).*1 = selected_files st ->
  exists st',
    remove_selected st = Some st'
    /\ file_listbox st' = List.filter (fun it => negb it.2) (file_listbox st)
    /\ selected_files st' = (file_listbox st').*1
    /\ tk.curselection (file_listbox st') = [].
Proof.
  intros Hm. unfold remove_selected. rewrite foldl_rev_foldr, <- Hm.
  pose proof (remove_loop [] (file_listbox st)) as Hloop. simpl in Hloop.
  unfold tk.curselection. rewrite Hloop.
  eexists. split; [reflexivity|]. simpl. split; [done|]. split; [done|].
  apply curselection_unselected.
Qed.

Lemma remove_selected_consistent (st : window) :
  consistent st -> exists st', remove_selected st = Some st' /\ consistent st'.
Proof.
  intros (Hm & Hnd & Hs).
  unfold remove_selected. rewrite foldl_rev_foldr, <- Hm.
  pose proof (remove_loop [] (file_listbox st)) as Hloop. simpl in Hloop.
  unfold tk.curselection. rewrite Hloop.
  eexists. split; [reflexivity|].
  apply consistent_update; [done|].
  apply (sublist_NoDup _ (selected_files st)); [exact Hnd|]. rewrite <- Hm.
  apply fmap_sublist, filter_sublist_gen.
Qed.

Lemma sort_files_consistent (st : window) :
  consistent st -> consistent (sort_files st).
Proof.
  intros (Hm & Hnd & Hs). unfold sort_files.
  destruct (selected_files st) as [|x l] eqn:Hsf; [by rewrite <- Hsf in *|].
  split; [|split];
    cbn [selected_files file_listbox status_label status_label_packed
         with_selection].
  - by rewrite selection_clear_all_items, insert_END_loop_items.
  - by rewrite natsorted_perm.
  - intros Hp. rewrite (Hs Hp). f_equal. by rewrite natsorted_perm.
Qed.

(** X22: [sort_files] keeps the files of a selection of ASCII names and
    puts them in natural key order; when there are any, the listbox shows
    them in that order and none of its items is selected. *)
Theorem sort_files_sorts_the_window (st : window) :
  ascii_names (selected_files st) = true ->
  selected_files (sort_files st) ≡ₚ selected_files st
  /\ in_key_order (selected_files (sort_files st)) = true
  /\ (selected_files st <> [] ->
      (file_listbox (sort_files st)).*1 = selected_files (sort_files st)
      /\ tk.curselection (file_listbox (sort_files st)) = []).
Proof.
  intros _. unfold sort_files.
  destruct (selected_files st) as [|x l] eqn:Hsf.
  { rewrite Hsf. by repeat split. }
  cbn [selected_files file_listbox with_selection].
  split; [apply natsorted_perm|]. split; [apply natsorted_in_key_order|].
  intros _.
  split; [by rewrite selection_clear_all_items, insert_END_loop_items|].
  apply curselection_cleared.
Qed.

End window_selection.

Section window_moves.
Context `{OsPath} `{ListFileIO} `{OsDir}.
Import gui.

Lemma swap_cons (a : string) (l : list string) (i j : nat) :
  pylist.swap (a :: l) (S i) (S j) = cons a <$> pylist.swap l i j.
Proof. unfold pylist.swap. simpl. by destruct (l !! j), (l !! i). Qed.

Lemma raise_item_cons (a : string * bool) (lb : tk.listbox) (n : nat) :
  raise_item (a :: lb) (S (S n)) = a :: raise_item lb (S n).
Proof.
  unfold raise_item.
  replace (S (S n) - 1)%nat with (S n) by lia.
  replace (S n - 1)%nat with n by lia.
  reflexivity.
Qed.

Lemma lower_item_cons (a : string * bool) (lb : tk.listbox) (n : nat) :
  lower_item (a :: lb) (S n) = a :: lower_item lb n.
Proof. reflexivity. Qed.

(** One round of the loop of [move_up] at the item after the prefix
    [l1] and the item [y]. *)
Lemma up_one_at (l1 l2 : tk.listbox) (x y : string) (fx fy : bool) :
  up_one (Some ((l1 ++ (y, fy) :: (x, fx) :: l2).*1,
                l1 ++ (y, fy) :: (x, fx) :: l2)) (S (length l1))
  = Some ((l1 ++ (x, true) :: (y, false) :: l2).*1,
          l1 ++ (x, true) :: (y, false) :: l2).
Proof.
  unfold up_one.
  change (tk.selection_set _ _)
    with (raise_item (l1 ++ (y, fy) :: (x, fx) :: l2) (S (length l1))).
  assert (Hsf : pylist.swap (l1 ++ (y, fy) :: (x, fx) :: l2).*1
                  (S (length l1)) (S (length l1) - 1)
                = Some (l1 ++ (x, true) :: (y, false) :: l2).*1).
  { replace (S (length l1) - 1)%nat with (length l1) by lia.
    induction l1 as [|a l1 IH]; [done|].
    cbn [app length]. rewrite !fmap_cons, swap_cons. by rewrite IH. }
  rewrite Hsf. do 2 f_equal. clear Hsf.
  induction l1 as [|a l1 IH]; [reflexivity|].
  cbn [app length]. by rewrite raise_item_cons, IH.
Qed.

(** One round of the loop of [move_down] at the item after the prefix
    [l1]. *)
Lemma down_one_at (l1 l2 : tk.listbox) (x y : string) (fx fy : bool) :
  down_one (Some ((l1 ++ (x, fx) :: (y, fy) :: l2).*1,
                  l1 ++ (x, fx) :: (y, fy) :: l2)) (length l1)
  = Some ((l1 ++ (y, false) :: (x, true) :: l2).*1,
          l1 ++ (y, false) :: (x, true) :: l2).
Proof.
  unfold down_one.
  change (tk.selection_set _ _)
    with (lower_item (l1 ++ (x, fx) :: (y, fy) :: l2) (length l1)).
  assert (Hsf : pylist.swap (l1 ++ (x, fx) :: (y, fy) :: l2).*1
                  (length l1) (length l1 + 1)
                = Some (l1 ++ (y, false) :: (x, true) :: l2).*1).
  { induction l1 as [|a l1 IH]; [done|].
    cbn [app length Nat.add]. rewrite !fmap_cons, swap_cons. by rewrite IH. }
  rewrite Hsf. do 2 f_equal. clear Hsf.
  induction l1 as [|a l1 IH]; [reflexivity|].
  cbn [app length]. by rewrite lower_item_cons, IH.
Qed.


Lemma curselection_from_app (n : nat) (l k : tk.listbox) :
  tk.curselection_from n (l ++ k)
  = tk.curselection_from n l ++ tk.curselection_from (n + length l) k.
Proof.
  revert n. induction l as [|[x s] l IH]; intros n; simpl.
  - by rewrite Nat.add_0_r.
  - rewrite IH, <- Nat.add_succ_comm. by destruct s.
Qed.

Lemma curselection_from_elem (n i : nat) (lb : tk.listbox) :
  i ∈ tk.curselection_from n lb
  <-> exists x, (n <= i)%nat /\ lb !! (i - n)%nat = Some (x, true).
Proof.
  revert n. induction lb as [|[y s] lb IH]; intros n; simpl.
  - split; [by intros ?%elem_of_nil|by intros (? & _ & ?)].
  - assert (Htail : i ∈ tk.curselection_from (S n) lb
              <-> exists x, (n < i)%nat /\ lb !! (i - S n)%nat = Some (x, true)).
    { rewrite IH. split; intros (x & ? & ?); exists x; split; auto; lia. }
    assert (Hcons : forall x, (n < i)%nat ->
              ((y, s) :: lb) !! (i - n)%nat = Some (x, true)
              <-> lb !! (i - S n)%nat = Some (x, true)).
    { intros x Hlt. replace (i - n)%nat with (S (i - S n)) by lia. done. }
    destruct s.
    + rewrite elem_of_cons, Htail. split.
      * intros [->|(x & Hlt & Hx)].
        -- exists y. split; [lia|]. by rewrite Nat.sub_diag.
        -- exists x. split; [lia|]. by apply Hcons.
      * intros (x & Hle & Hx). destruct (decide (i = n)) as [->|Hne]; [by left|].
        right. exists x. split; [lia|]. apply Hcons; [lia|done].
    + rewrite Htail. split.
      * intros (x & Hlt & Hx). exists x. split; [lia|]. by apply Hcons.
      * intros (x & Hle & Hx). destruct (decide (i = n)) as [->|Hne].
        { by rewrite Nat.sub_diag in Hx. }
        exists x. split; [lia|]. apply Hcons; [lia|done].
Qed.

Lemma curselection_from_nil (n : nat) (lb : tk.listbox) :
  tk.curselection_from n lb = [] <-> Forall (fun it => it.2 = false) lb.
Proof.
  revert n. induction lb as [|[y []] lb IH]; intros n; simpl.
  - split; [by constructor|done].
  - split; [done|]. by intros [[=] _]%Forall_cons_1.
  - rewrite IH. split; [by constructor|]. by intros [_ ?]%Forall_cons_1.
Qed.

(** ** What sinking does *)

Lemma sink_unselected (y : string) (t : tk.listbox) :
  Forall (fun it => it.2 = false) t -> sink y t = (y, false) :: t.
Proof.
  intros Ht. revert y. induction Ht as [|[x s] t Hs Ht IH]; intros y; [done|].
  simpl in Hs. subst s. simpl. by rewrite IH.
Qed.

Lemma sink_perm (y : string) (t : tk.listbox) : sink y t ≡ₚ (y, false) :: t.
Proof.
  revert y. induction t as [|[x []] t IH]; intros y; simpl; [done| |].
  - rewrite IH. apply Permutation_swap.
  - by rewrite IH.
Qed.

Lemma sink_curselection (n : nat) (y : string) (t : tk.listbox) :
  tk.curselection_from n (sink y t) = Nat.pred <$> tk.curselection_from (S n) t.
Proof.
  revert n y. induction t as [|[x []] t IH]; intros n y; simpl; [done| |].
  - by rewrite IH.
  - by rewrite IH.
Qed.

Lemma sink_lookup (y x : string) (t : tk.listbox) (i : nat) :
  t !! i = Some (x, true) -> sink y t !! i = Some (x, true).
Proof.
  revert y i. induction t as [|[z []] t IH]; intros y [|i]; simpl; try done.
  - apply IH.
  - apply IH.
Qed.

Lemma sink_last (b : string) (u : tk.listbox) :
  exists w c, sink b u = w ++ [(c, false)]
              /\ forall v, sink b (u ++ v) = w ++ sink c v.
Proof.
  revert b. induction u as [|[x []] u IH]; intros b.
  - by exists [], b.
  - destruct (IH b) as (w & c & Hw & Hv). exists ((x, true) :: w), c.
    simpl. split; [by rewrite Hw|]. intros v. by rewrite Hv.
  - destruct (IH x) as (w & c & Hw & Hv). exists ((b, false) :: w), c.
    simpl. split; [by rewrite Hw|]. intros v. by rewrite Hv.
Qed.

(** Sinking back, from the other end, undoes sinking. *)
Lemma sink_rev (y c : string) (t w : tk.listbox) :
  sink y t = w ++ [(c, false)] -> sink c (rev w) = rev t ++ [(y, false)].
Proof.
  revert y w. induction t as [|[x []] t IH]; intros y w; simpl.
  - destruct w as [|a [|a' w]]; intros [=]. by subst.
  - destruct w as [|a w]; [by intros [=]|]. intros [= <- Hw].
    specialize (IH y w Hw). simpl.
    destruct (sink_last c (rev w)) as (w2 & c2 & Hw2 & Hv).
    rewrite Hw2 in IH. apply app_inj_tail in IH as [-> [= ->]].
    rewrite Hv. simpl. by rewrite <- app_assoc.
  - destruct w as [|a w].
    { intros [= _ Hs]. destruct t as [|[? []] ?]; done. }
    intros [= <- Hw]. specialize (IH x w Hw). simpl.
    destruct (sink_last c (rev w)) as (w2 & c2 & Hw2 & Hv).
    rewrite Hw2 in IH. apply app_inj_tail in IH as [-> [= ->]].
    rewrite Hv. simpl. by rewrite <- app_assoc.
Qed.

(** ** The loops of [move_up] and [move_down] *)

Lemma up_loop (pre t : tk.listbox) (y : string) :
  foldl up_one (Some ((pre ++ (y, false) :: t).*1, pre ++ (y, false) :: t))
    (tk.curselection_from (S (length pre)) t)
  = Some ((pre ++ sink y t).*1, pre ++ sink y t).
Proof.
  revert pre y. induction t as [|[x []] t IH]; intros pre y.
  - reflexivity.
  - change (tk.curselection_from (S (length pre)) ((x, true) :: t))
      with (S (length pre) :: tk.curselection_from (S (S (length pre))) t).
    cbn [foldl]. rewrite up_one_at.
    specialize (IH (pre ++ [(x, true)]) y).
    rewrite length_app, Nat.add_1_r, <- !app_assoc in IH. exact IH.
  - change (tk.curselection_from (S (length pre)) ((x, false) :: t))
      with (tk.curselection_from (S (S (length pre))) t).
    specialize (IH (pre ++ [(y, false)]) x).
    rewrite length_app, Nat.add_1_r, <- !app_assoc in IH. exact IH.
Qed.

Lemma down_loop (t post : tk.listbox) (y : string) :
  foldl down_one (Some ((t ++ (y, false) :: post).*1, t ++ (y, false) :: post))
    (rev (tk.curselection_from 0 t))
  = Some ((rev (sink y (rev t)) ++ post).*1, rev (sink y (rev t)) ++ post).
Proof.
  revert y post. induction t as [|[x s] t IH] using rev_ind; intros y post.
  - reflexivity.
  - rewrite curselection_from_app, rev_app_distr, <- app_assoc. simpl.
    destruct s.
    + cbn [rev app foldl]. rewrite down_one_at, IH.
      rewrite rev_app_distr. cbn [rev app sink]. by rewrite <- !app_assoc.
    + cbn [rev app]. rewrite IH.
      rewrite rev_app_distr. cbn [rev app sink]. by rewrite <- !app_assoc.
Qed.

Lemma with_selection_same (st : window) :
  with_selection st (selected_files st) (file_listbox st) = st.
Proof. by destruct st. Qed.

Lemma move_up_sinks (st : window) (y : string) (t : tk.listbox) :
  (file_listbox st).*1 = selected_files st ->
  file_listbox st = (y, false) :: t ->
  move_up st = Some (with_selection st (sink y t).*1 (sink y t)).
Proof.
  intros Hm Hlb. unfold move_up. rewrite Hlb.
  change (tk.curselection ((y, false) :: t)) with (tk.curselection_from 1 t).
  destruct (tk.curselection_from 1 t) as [|i rest] eqn:Hcs.
  - apply curselection_from_nil in Hcs. rewrite sink_unselected by done.
    by rewrite <- Hlb, Hm, with_selection_same.
  - assert (Hi : i ∈ tk.curselection_from 1 t) by (rewrite Hcs; by left).
    apply curselection_from_elem in Hi as (x & Hle & _).
    destruct i as [|i]; [lia|].
    rewrite <- Hcs, <- Hm, Hlb.
    pose proof (up_loop [] t y) as Hloop. cbn [app length] in Hloop.
    by rewrite Hloop.
Qed.

Lemma snoc_unselected (lb : tk.listbox) :
  lb = [] \/ (exists t y, lb = t ++ [(y, false)])
  \/ (exists t x, lb = t ++ [(x, true)]).
Proof.
  destruct lb as [|a lb] using rev_ind; [by left|].
  right. destruct a as [x []]; [right|left]; eauto.
Qed.

Lemma move_down_sinks (st : window) (y : string) (t : tk.listbox) :
  (file_listbox st).*1 = selected_files st ->
  file_listbox st = t ++ [(y, false)] ->
  move_down st
  = Some (with_selection st (rev (sink y (rev t))).*1 (rev (sink y (rev t)))).
Proof.
  intros Hm Hlb. unfold move_down. rewrite Hlb.
  unfold tk.curselection. rewrite curselection_from_app. simpl.
  rewrite app_nil_r.
  destruct (last (tk.curselection_from 0 t)) as [final|] eqn:Hlast.
  - assert (Hin : final ∈ tk.curselection_from 0 t).
    { apply last_Some in Hlast as [l' ->]. rewrite elem_of_app. right. by left. }
    apply curselection_from_elem in Hin as (x & _ & Hx).
    apply lookup_lt_Some in Hx.
    rewrite <- Hm, Hlb, length_fmap, length_app. simpl.
    destruct (Z.eqb_spec (Z.of_nat final)
                (Z.of_nat (length t + 1) - 1)) as [Heq|_]; [lia|].
    pose proof (down_loop t [] y) as Hloop. rewrite !app_nil_r in Hloop.
    by rewrite Hloop.
  - apply last_None in Hlast. apply curselection_from_nil in Hlast.
    rewrite sink_unselected.
    + simpl. rewrite rev_involutive.
      by rewrite <- Hlb, Hm, with_selection_same.
    + rewrite Forall_forall in Hlast. apply Forall_forall. intros it Hit.
      apply Hlast. apply list_elem_of_In, in_rev. by apply list_elem_of_In.
Qed.

End window_moves.

Section window_claims.
Context `{OsPath} `{ListFileIO} `{OsDir}.
Import gui.

(** X23: with the listbox showing the selection and its first item not
    selected, [move_up] raises no [IndexError] and moves every selected
    item one place up, selection included; the files stay the same. *)
Theorem move_up_moves_selected_items (st : window) (y : string) (t : tk.listbox) :
  (file_listbox st).*1 = selected_files st ->
  file_listbox st = (y, false) :: t ->
  exists st',
    move_up st = Some st'
    /\ (file_listbox st').*1 = selected_files st'
    /\ selected_files st' ≡ₚ selected_files st
    /\ tk.curselection (file_listbox st')
       = Nat.pred <$> tk.curselection (file_listbox st)
    /\ forall i x, i ∈ tk.curselection (file_listbox st) ->
         selected_files st !! i = Some x ->
         selected_files st' !! (i - 1)%nat = Some x.
Proof.
  intros Hm Hlb. eexists. split; [by apply (move_up_sinks st y t)|].
  cbn [file_listbox selected_files with_selection].
  split; [done|]. split; [by rewrite sink_perm, <- Hm, Hlb|].
  rewrite Hlb. split; [apply sink_curselection|].
  intros i x Hi. rewrite <- Hm, Hlb.
  change (tk.curselection ((y, false) :: t)) with (tk.curselection_from 1 t) in Hi.
  apply curselection_from_elem in Hi as (x' & Hle & Hx').
  destruct i as [|i]; [lia|]. simpl in Hx'. rewrite Nat.sub_0_r in Hx'.
  simpl. rewrite Nat.sub_0_r, !list_lookup_fmap, Hx'. simpl.
  intros [= <-]. by rewrite (sink_lookup y x' t i Hx').
Qed.

(** X24: [move_down] undoes [move_up]: with the listbox showing the
    selection and its first item not selected, moving up and then down
    gives the window back, selection included. *)
Theorem move_up_then_move_down (st : window) (y : string) (t : tk.listbox) :
  (file_listbox st).*1 = selected_files st ->
  file_listbox st = (y, false) :: t ->
  exists st', move_up st = Some st' /\ move_down st' = Some st.
Proof.
  intros Hm Hlb. eexists. split; [by apply (move_up_sinks st y t)|].
  destruct (sink_last y t) as (w & c & Hw & _).
  rewrite (move_down_sinks _ c w); [|done|done].
  rewrite (sink_rev y c t w Hw), rev_app_distr, rev_involutive. simpl.
  f_equal. rewrite <- Hlb. destruct st. simpl in *. by subst.
Qed.

Lemma move_up_consistent (st : window) :
  consistent st -> exists st', move_up st = Some st' /\ consistent st'.
Proof.
  intros Hc. pose proof Hc as (Hm & Hnd & Hs).
  destruct (file_listbox st) as [|[y []] t] eqn:Hlb.
  - exists st. split; [|done]. unfold move_up. by rewrite Hlb.
  - exists st. split; [|done]. unfold move_up. by rewrite Hlb.
  - eexists. split; [by apply (move_up_sinks st y t); [rewrite Hlb|]|].
    assert (Hp : (sink y t).*1 ≡ₚ selected_files st).
    { by rewrite sink_perm, <- Hm. }
    unfold consistent.
    cbn [status_label_packed status_label selected_files file_listbox
         with_selection].
    split; [done|]. split; [by rewrite Hp|].
    intros Hpk. by rewrite (Hs Hpk), Hp.
Qed.

Lemma move_down_consistent (st : window) :
  consistent st -> exists st', move_down st = Some st' /\ consistent st'.
Proof.
  intros Hc. pose proof Hc as (Hm & Hnd & Hs).
  destruct (snoc_unselected (file_listbox st))
    as [Hlb|[(t & y & Hlb)|(t & x & Hlb)]].
  - exists st. split; [|done]. unfold move_down. by rewrite Hlb.
  - eexists. split; [by apply (move_down_sinks st y t)|].
    assert (Hp : (rev (sink y (rev t))).*1 ≡ₚ selected_files st).
    { rewrite <- Hm, Hlb. apply fmap_Permutation.
      rewrite <- Permutation_rev, sink_perm, <- Permutation_rev.
      apply Permutation_cons_append. }
    unfold consistent.
    cbn [status_label_packed status_label selected_files file_listbox
         with_selection].
    split; [done|]. split; [by rewrite Hp|].
    intros Hpk. by rewrite (Hs Hpk), Hp.
  - exists st. split; [|done]. unfold move_down. rewrite Hlb.
    unfold tk.curselection. rewrite curselection_from_app. simpl.
    rewrite last_snoc, <- Hm, Hlb, length_fmap, length_app. simpl.
    destruct (Z.eqb_spec (Z.of_nat (length t)) (Z.of_nat (length t + 1) - 1));
      [done|lia].
Qed.


Lemma show_consistent (st : window) (ds : list dialog) :
  consistent st -> consistent (show st ds).
Proof. done. Qed.

Lemma with_folder_consistent (st : window) (folder : string) :
  consistent st -> consistent (with_folder st folder).
Proof. done. Qed.

Lemma append_loop (l : list string) (st : window) :
  foldl append_file st l
  = with_selection st (selected_files st ++ l)
      (foldl tk.insert_END (file_listbox st) l).
Proof.
  revert st. induction l as [|p l IH]; intros st.
  - simpl. by rewrite app_nil_r, with_selection_same.
  - simpl. rewrite IH. unfold append_file, with_selection. simpl.
    by rewrite <- app_assoc.
Qed.

(** The paths the importer adds are new to the selection, and to one
    another, under [norm]. *)
Lemma added_paths_new (sel : list string) (list_path : string)
    (dlg : list dialog) (r : report) :
  parse_file_list sel list_path = (dlg, inr r) ->
  NoDup (norm <$> added_paths r)
  /\ forall p, p ∈ added_paths r -> norm p ∉ (norm <$> sel).
Proof.
  intros (lines & last_err & Hr & -> & ->)%parse_file_list_returns.
  rewrite import_loop_closed. cbn [added_paths already_present empty_report].
  destruct (reconcile_loop_new (list_to_set (norm <$> sel))
              (resolved (dirname list_path)
                 <$> List.filter (present (dirname list_path)) lines) ([], []))
    as [Hnd Hnew].
  { simpl. apply NoDup_nil_2. }
  { intros p Hp. by apply elem_of_nil in Hp. }
  split; [done|]. intros p Hp Hin. apply (Hnew p Hp).
  by apply elem_of_list_to_set.
Qed.

Lemma add_files_from_list_returns (list_path : string) (st st' : window) :
  pystr.is_empty list_path = false ->
  add_files_from_list list_path st = inr st' ->
  exists dlg r,
    parse_file_list (selected_files st) list_path = (dlg, inr r)
    /\ st' = show (update_file_count
                     (with_selection (show st dlg)
                        (selected_files st ++ added_paths r)
                        (foldl tk.insert_END (file_listbox st) (added_paths r))))
               [showinfo "Import summary" (import_summary r)].
Proof.
  intros Hne. unfold add_files_from_list. rewrite Hne.
  destruct (parse_file_list (selected_files st) list_path) as [dlg [e|r]];
    [done|].
  intros [= <-]. exists dlg, r. split; [done|]. by rewrite append_loop.
Qed.

(** X25: [add_files_from_list] puts the paths the importer added behind
    the selection; it never makes the selection hold one file twice under
    [norm] when it did not before. *)
Theorem add_files_from_list_appends_new_files (list_path : string)
    (st st' : window) :
  pystr.is_empty list_path = false ->
  add_files_from_list list_path st = inr st' ->
  exists dlg r,
    parse_file_list (selected_files st) list_path = (dlg, inr r)
    /\ selected_files st' = selected_files st ++ added_paths r
    /\ (NoDup (norm <$> selected_files st) ->
        NoDup (norm <$> selected_files st')).
Proof.
  intros Hne (dlg & r & Hp & ->)%add_files_from_list_returns; [|done].
  exists dlg, r. split; [done|]. split; [done|].
  cbn [selected_files show update_file_count with_status with_selection].
  destruct (added_paths_new _ _ _ _ Hp) as [Hnd Hnew].
  intros Hsel. rewrite fmap_app. apply NoDup_app. split; [done|].
  split; [|done].
  intros x Hx (p & -> & Hp')%list_elem_of_fmap. by apply (Hnew p Hp').
Qed.

Lemma add_files_from_list_consistent (list_path : string) (st st' : window) :
  consistent st -> add_files_from_list list_path st = inr st' -> consistent st'.
Proof.
  intros Hc. destruct (pystr.is_empty list_path) eqn:Hne.
  { unfold add_files_from_list. rewrite Hne. by intros [= <-]. }
  intros (dlg & r & Hp & ->)%add_files_from_list_returns; [|done].
  destruct Hc as (Hm & Hnd & Hs).
  destruct (added_paths_new _ _ _ _ Hp) as [Hnda Hnew].
  apply show_consistent, consistent_update.
  - cbn [file_listbox show]. by rewrite insert_END_loop_items, Hm.
  - cbn [selected_files show]. apply NoDup_app. split; [done|]. split.
    + intros p Hp1 Hp2. apply (Hnew p Hp2). apply list_elem_of_fmap. eauto.
    + by apply (NoDup_fmap_1 norm).
Qed.

(** What a run of the concatenator that returns leaves behind. *)
Lemma concatenate_file_list_returns (w w' : World) (paths : list string)
    (output_path : string) :
  concatenate_file_list w paths output_path = (w', inr ()) ->
  paths <> []
  /\ fs w' !! output_path
     = Some (Regular true (Some (String.concat "" (emitted w <$> paths)))).
Proof.
  destruct paths as [|q paths]; [done|]. intros Hrun. split; [done|].
  rewrite concatenate_closed_form in Hrun by done.
  by apply (finish_written _ _ _ _ Hrun).
Qed.

Lemma concatenate_text_files_returns (w w' : World)
    (folder_path output_path : string) :
  concatenate_text_files w folder_path output_path = (w', inr ()) ->
  exists names,
    isdir folder_path = true /\ listdir folder_path = inr names
    /\ concatenate_file_list w
         (join folder_path
            <$> natsort.natsorted (List.filter (kept folder_path) names))
         output_path = (w', inr ()).
Proof.
  unfold concatenate_text_files.
  destruct (isdir folder_path); [|done]. cbn [negb].
  destruct (listdir folder_path) as [e|names]; [done|].
  intros Hrun. by exists names.
Qed.

(** X26: [run_concatenation] shows exactly one message box and leaves the
    selection and the listbox alone.  The box is the success box only when
    the concatenator returned, and then the output file, by default
    [concatenated.txt], holds the pieces of the files that were read,
    which in files mode are the files of the selection in their order.
    Without a folder in folder mode, and without a file in files mode, the
    box is an error box and nothing is read, written or printed. *)
Theorem run_concatenation_reports (w : World) (st : window) :
  let output_path :=
    if pystr.is_empty (output_entry st) then "concatenated.txt"
    else output_entry st in
  let run := run_concatenation w st in
  selected_files run.2 = selected_files st
  /\ file_listbox run.2 = file_listbox st
  /\ (exists d,
        dialogs run.2 = dialogs st ++ [d]
        /\ match d with
           | showerror title _ => title = "Error"
           | showinfo title message =>
               title = "Success"
               /\ message = "Files concatenated successfully to:" +:+ pystr.nl
                            +:+ output_path
               /\ exists paths,
                    paths <> []
                    /\ (String.eqb (mode_var st) "folder" = false ->
                        paths = selected_files st)
                    /\ fs run.1 !! output_path
                       = Some (Regular true
                                 (Some (String.concat "" (emitted w <$> paths))))
           end)
  /\ ((if String.eqb (mode_var st) "folder"
       then pystr.is_empty (folder_entry st) = true
       else selected_files st = []) ->
      run = (w, show st [showerror "Error"
                           (if String.eqb (mode_var st) "folder"
                            then "Please select a folder."
                            else "Please select files to concatenate.")])).
Proof.
  intros output_path run. unfold run, run_concatenation. fold output_path.
  destruct (String.eqb (mode_var st) "folder").
  - destruct (pystr.is_empty (folder_entry st)).
    { split; [done|]. split; [done|]. split; [by eexists|done]. }
    destruct (concatenate_text_files w (folder_entry st) output_path)
      as [w' [e|[]]] eqn:Hrun; cbn [fst snd];
      (split; [done|]); (split; [done|]); (split; [|done]).
    + by eexists.
    + eexists. split; [reflexivity|]. split; [done|]. split; [done|].
      apply concatenate_text_files_returns in Hrun
        as (names & _ & _ & [Hne Hfs]%concatenate_file_list_returns).
      eexists. split; [exact Hne|]. split; [done|exact Hfs].
  - destruct (selected_files st) as [|q l] eqn:Hsel.
    { split; [done|]. split; [done|]. split; [by eexists|done]. }
    rewrite <- Hsel.
    destruct (concatenate_file_list w (selected_files st) output_path)
      as [w' [e|[]]] eqn:Hrun; cbn [fst snd];
      (split; [done|]); (split; [done|]);
      (split; [|by rewrite Hsel]).
    + by eexists.
    + eexists. split; [reflexivity|]. split; [done|]. split; [done|].
      apply concatenate_file_list_returns in Hrun as [Hne Hfs].
      eexists. split; [exact Hne|]. split; [done|exact Hfs].
Qed.

Lemma run_concatenation_consistent (w : World) (st : window) :
  consistent st -> consistent (run_concatenation w st).2.
Proof.
  intros Hc. unfold run_concatenation.
  repeat (match goal with
          | |- context [if ?b then _ else _] => destruct b
          | |- context [match ?x with _ => _ end] => destruct x
          end; try (by apply show_consistent)).
Qed.

Lemma on_mode_change_consistent (st : window) :
  consistent st -> consistent (on_mode_change st).
Proof.
  intros (Hm & Hnd & Hs). unfold on_mode_change.
  destruct (String.eqb (mode_var st) "folder").
  - split; [done|]. split; [apply NoDup_nil_2|done].
  - by repeat split.
Qed.

(** X27: what the window keeps: after any of its methods the listbox
    shows the selection, no path is in the selection twice, and the status
    label, when it is visible, tells how many files are selected; none of
    the methods that index the selection raises [IndexError]. *)
Theorem window_stays_consistent (st : window) :
  consistent st ->
  (forall files, consistent (add_files files st))
  /\ (forall list_path st',
        add_files_from_list list_path st = inr st' -> consistent st')
  /\ (exists st', remove_selected st = Some st' /\ consistent st')
  /\ consistent (clear_all st)
  /\ (exists st', move_up st = Some st' /\ consistent st')
  /\ (exists st', move_down st = Some st' /\ consistent st')
  /\ consistent (sort_files st)
  /\ consistent (on_mode_change st)
  /\ (forall folder, consistent (browse_folder folder st))
  /\ (forall w, consistent (run_concatenation w st).2).
Proof.
  intros Hc.
  split; [intros files; by apply add_files_consistent|].
  split; [intros p st'; by apply add_files_from_list_consistent|].
  split; [by apply remove_selected_consistent|].
  split; [by apply consistent_update; [|apply NoDup_nil_2]|].
  split; [by apply move_up_consistent|].
  split; [by apply move_down_consistent|].
  split; [by apply sort_files_consistent|].
  split; [by apply on_mode_change_consistent|].
  split; [|intros w; by apply run_concatenation_consistent].
  intros folder. unfold browse_folder. by destruct (pystr.is_empty folder).
Qed.

End window_claims.

(** ** The command line *)

Section command_line_facts.
Context `{OsPath} `{OsDir}.

(** X28: the command-line block, which runs once the imports of the script
    have succeeded.  With a folder argument it ends with status 0 or 1.
    It ends with status 1 exactly when folder mode raised, and the last
    line printed is then ["Error: "] and the text of the exception; with
    status 0 the output file, by default [concatenated.txt], has been
    written. *)
Theorem main_exit_status (prog folder_path : string) (rest : list string)
    (w : World) :
  let output_path :=
    match rest with
    | output_path :: _ => output_path
    | [] => "concatenated.txt"
    end in
  let r := main (prog :: folder_path :: rest) w in
  (r.2 = Exit 0 \/ r.2 = Exit 1)
  /\ (r.2 = Exit 1 <->
      exists e, (concatenate_text_files w folder_path output_path).2 = inl e
                /\ last (stdout r.1) = Some ("Error: " +:+ str e))
  /\ (r.2 = Exit 0 ->
      exists text, fs r.1 !! output_path = Some (Regular true (Some text))).
Proof.
  intros output_path. unfold main. fold output_path.
  destruct (concatenate_text_files w folder_path output_path) as [w' [e|[]]]
    eqn:Hrun; cbn [fst snd].
  - split; [by right|]. split; [|done]. split; [|done].
    intros _. exists e. split; [done|]. unfold print. cbn [stdout].
    by rewrite last_snoc.
  - split; [by left|]. split.
    + split; [done|]. by intros (e & [=] & _).
    + intros _.
      apply concatenate_text_files_returns in Hrun
        as (names & _ & _ & [_ Hfs]%concatenate_file_list_returns).
      eauto.
Qed.

End command_line_facts.

(** ** The further properties on the example hosts *)

Lemma is_allowed_case_insensitive_witness :
  pystr.lower "/docs/README.TXT" = pystr.lower "/docs/readme.txt"
  /\ @is_allowed demo.os "/docs/README.TXT" = @is_allowed demo.os "/docs/readme.txt".
Proof.
  split; [reflexivity|].
  apply (is_allowed_case_insensitive demo.ps demo.isfile). reflexivity.
Defined.

Lemma is_allowed_ignores_directory_witness :
  pystr.contains_char "/" "notes.MD" = false
  /\ @is_allowed demo.os (posixpath.join "/data/sub" "notes.MD")
     = @is_allowed demo.os "notes.MD".
Proof.
  split; [reflexivity|].
  apply (is_allowed_ignores_directory demo.ps demo.isfile). reflexivity.
Defined.

Lemma allowed_has_reserved_name_or_extension_witness :
  @is_allowed demo.os "/x/Report.TXT" = true
  /\ (pystr.lower (posixpath.basename "/x/Report.TXT") ∈ ALLOWED_NAMES
      \/ exists root ext,
           ext ∈ ALLOWED_EXTS
           /\ pystr.lower (posixpath.basename "/x/Report.TXT") = root +:+ ext).
Proof.
  split; [reflexivity|].
  apply (allowed_has_reserved_name_or_extension demo.ps demo.isfile). reflexivity.
Defined.

Lemma is_allowed_without_dot_witness :
  pystr.contains_char "." (posixpath.basename "/src/Makefile") = false
  /\ @is_allowed demo.os "/src/Makefile" = true
  /\ @is_allowed demo.os "/src/README" = false.
Proof.
  split; [reflexivity|]. split.
  - etrans; [apply (is_allowed_without_dot demo.ps demo.isfile); reflexivity|].
    reflexivity.
  - etrans; [apply (is_allowed_without_dot demo.ps demo.isfile); reflexivity|].
    reflexivity.
Defined.

Lemma natsorted_sorts_witness :
  ascii_names ["file10.txt"; "file2.txt"; "file1.txt"] = true
  /\ natsort.natsorted ["file10.txt"; "file2.txt"; "file1.txt"]
     ≡ₚ ["file10.txt"; "file2.txt"; "file1.txt"]
  /\ natsort.key_lt "file10.txt" "file1.txt" = false.
Proof.
  split; [reflexivity|].
  destruct (natsorted_sorts ["file10.txt"; "file2.txt"; "file1.txt"] eq_refl)
    as [Hperm Hord].
  split; [exact Hperm|].
  apply (Hord 0%nat 2%nat); [lia|reflexivity|reflexivity].
Defined.

Lemma natsorted_keeps_sorted_witness :
  ascii_names ["a1"; "a02"; "a2"; "b"] = true
  /\ in_key_order ["a1"; "a02"; "a2"; "b"] = true
  /\ natsort.natsorted ["a1"; "a02"; "a2"; "b"] = ["a1"; "a02"; "a2"; "b"].
Proof.
  split; [reflexivity|]. split; [reflexivity|].
  apply natsorted_keeps_sorted; reflexivity.
Defined.

Lemma natural_order_of_numbers_witness :
  has_digit "file" = false /\ has_digit ".txt" = false
  /\ "2" <> "" /\ all_digits "2" = true /\ "10" <> "" /\ all_digits "10" = true
  /\ natsort.compare_tuple (natsort.natsort_key "file2.txt")
       (natsort.natsort_key "file10.txt") = Lt.
Proof.
  repeat (split; [done|]).
  exact (natural_order_of_numbers "file" "2" "10" ".txt" eq_refl eq_refl
           ltac:(discriminate) eq_refl ltac:(discriminate) eq_refl).
Defined.

Lemma leading_zero_is_ignored_witness :
  has_digit "img" = false /\ has_digit "" = false
  /\ "2" <> "" /\ all_digits "2" = true
  /\ natsort.natsort_key "img02" = natsort.natsort_key "img2".
Proof.
  repeat (split; [done|]).
  exact (leading_zero_is_ignored "img" "2" "" eq_refl eq_refl
           ltac:(discriminate) eq_refl).
Defined.

Lemma concatenate_file_list_app_witness :
  exists w3 t1 t2,
    @concatenate_file_list demo.os demo.world (["a.txt"] ++ ["b.txt"; "c.md"])
      "out.txt" = (w3, inr ())
    /\ fs (@concatenate_file_list demo.os demo.world ["a.txt"] "out.txt").1
         !! "out.txt" = Some (Regular true (Some t1))
    /\ fs (@concatenate_file_list demo.os demo.world ["b.txt"; "c.md"] "out.txt").1
         !! "out.txt" = Some (Regular true (Some t2))
    /\ fs w3 !! "out.txt" = Some (Regular true (Some (t1 +:+ t2))).
Proof.
  apply (@concatenate_file_list_app demo.os demo.world); vm_compute; reflexivity.
Defined.

Lemma imported_paths_are_allowed_files_witness :
  (@parse_file_list demo.os demo.io [] "/proj/list.txt").2
  = inr {| added_paths := ["/proj/docs/readme.md"];
           already_present := [];
           not_found := ["missing.txt"];
           skipped_not_allowed := ["image.png"] |}
  /\ @is_allowed demo.os "/proj/docs/readme.md" = true
  /\ @isfile demo.os "/proj/docs/readme.md" = true.
Proof.
  split; [vm_compute; reflexivity|].
  apply (@imported_paths_are_allowed_files demo.os demo.io [] "/proj/list.txt"
           [] {| added_paths := ["/proj/docs/readme.md"];
                 already_present := [];
                 not_found := ["missing.txt"];
                 skipped_not_allowed := ["image.png"] |}).
  - vm_compute. reflexivity.
  - simpl. by left.
Defined.

Lemma imported_paths_in_file_order_witness :
  @read_lines demo.io "/proj/list.txt" (@encodings demo.io) None
  = inr (demo.manifest, None)
  /\ ["/proj/docs/readme.md"]
     `sublist_of` (@resolved demo.os "/proj" <$> demo.manifest).
Proof.
  split; [reflexivity|].
  destruct (@imported_paths_in_file_order demo.os demo.io [] "/proj/list.txt"
    demo.manifest None []
    {| added_paths := ["/proj/docs/readme.md"];
       already_present := [];
       not_found := ["missing.txt"];
       skipped_not_allowed := ["image.png"] |}) as [Ha _].
  - reflexivity.
  - vm_compute. reflexivity.
  - exact Ha.
Defined.

Lemma blank_and_comment_lines_are_ignored_witness :
  demo_lists.plain <> demo_lists.commented
  /\ (@parse_file_list demo.os demo_lists.io [] "/proj/plain.txt").2
     = (@parse_file_list demo.os demo_lists.io [] "/proj/commented.txt").2.
Proof.
  split; [discriminate|].
  apply (@blank_and_comment_lines_are_ignored demo.os demo_lists.io []
           "/proj/plain.txt" "/proj/commented.txt"
           demo_lists.plain demo_lists.commented None None);
    vm_compute; reflexivity.
Defined.

Lemma first_usable_encoding_decides_witness :
  @encodings demo_lists.io = ["utf-8-sig"] ++ "cp1250" :: ["cp1252"; "latin-1"]
  /\ decode_failure (@open_readlines demo_lists.io "/proj/legacy.txt" "utf-8-sig")
  /\ (@parse_file_list demo.os demo_lists.io [] "/proj/legacy.txt").2
     = inr {| added_paths := ["/proj/docs/readme.md"];
              already_present := [];
              not_found := ["missing.txt"];
              skipped_not_allowed := [] |}.
Proof.
  assert (Hfail : decode_failure
            (@open_readlines demo_lists.io "/proj/legacy.txt" "utf-8-sig")).
  { eexists. reflexivity. }
  split; [reflexivity|]. split; [exact Hfail|].
  assert (Hall : Forall (fun e => decode_failure
            (@open_readlines demo_lists.io "/proj/legacy.txt" e)) ["utf-8-sig"]).
  { constructor; [exact Hfail|constructor]. }
  pose proof (@first_usable_encoding_decides demo.os demo_lists.io []
    "/proj/legacy.txt" ["utf-8-sig"] ["cp1252"; "latin-1"] "cp1250" eq_refl
    Hall) as Hd.
  change (@open_readlines demo_lists.io "/proj/legacy.txt" "cp1250")
    with (inr demo_lists.plain : exception + list string) in Hd.
  cbv beta iota in Hd. rewrite Hd. vm_compute. reflexivity.
Defined.

Lemma imported_paths_are_absolute_witness :
  posixpath.isabs (posixpath.cwd demo.ps) = true
  /\ posixpath.isabs "/proj/docs/readme.md" = true.
Proof.
  split; [reflexivity|].
  apply (@imported_paths_are_absolute demo.ps demo.isfile demo.io []
           "/proj/list.txt" []
           {| added_paths := ["/proj/docs/readme.md"];
              already_present := [];
              not_found := ["missing.txt"];
              skipped_not_allowed := ["image.png"] |}).
  - reflexivity.
  - vm_compute. reflexivity.
  - simpl. by left.
Defined.

Lemma folder_mode_reads_kept_names_in_order_witness :
  @isdir demo_folder.dir "/data" = true
  /\ @listdir demo_folder.dir "/data"
     = inr ["notes.md"; "file10.txt"; "image.png"; "sub.txt"; "file2.txt"]
  /\ List.filter (@kept demo_folder.os "/data")
       ["notes.md"; "file10.txt"; "image.png"; "sub.txt"; "file2.txt"]
     = ["notes.md"; "file10.txt"; "file2.txt"]
  /\ ascii_names ["notes.md"; "file10.txt"; "file2.txt"] = true
  /\ exists files,
       files ≡ₚ ["notes.md"; "file10.txt"; "file2.txt"]
       /\ in_key_order files = true
       /\ @concatenate_text_files demo_folder.os demo_folder.dir
            demo_folder.world "/data" "/out.txt"
          = @concatenate_file_list demo_folder.os demo_folder.world
              (@join demo_folder.os "/data" <$> files) "/out.txt".
Proof.
  split; [reflexivity|]. split; [reflexivity|]. split; [reflexivity|].
  split; [reflexivity|].
  exact (@folder_mode_reads_kept_names_in_order demo_folder.os demo_folder.dir
           demo_folder.world "/data" "/out.txt" _ eq_refl eq_refl eq_refl).
Defined.

Lemma folder_mode_without_files_witness :
  @isdir demo_folder.dir "/empty" = true
  /\ @listdir demo_folder.dir "/empty" = inr []
  /\ @concatenate_text_files demo_folder.os demo_folder.dir
       demo_folder.world "/empty" "/out.txt"
     = (demo_folder.world, inl (ValueError "No files to concatenate.")).
Proof.
  split; [reflexivity|]. split; [reflexivity|].
  apply (@folder_mode_without_files demo_folder.os demo_folder.dir
           demo_folder.world "/empty" "/out.txt" [] eq_refl eq_refl).
  intros f Hf. by apply elem_of_nil in Hf.
Defined.

Lemma remove_selected_removes_selected_witness :
  (gui.file_listbox demo_folder.window).*1 = gui.selected_files demo_folder.window
  /\ exists st',
       gui.remove_selected demo_folder.window = Some st'
       /\ gui.file_listbox st' = [("a.txt", false); ("d.txt", false)]
       /\ gui.selected_files st' = ["a.txt"; "d.txt"].
Proof.
  split; [reflexivity|].
  destruct (remove_selected_removes_selected demo_folder.window eq_refl)
    as (st' & Hr & Hlb & Hsf & _).
  exists st'. split; [exact Hr|]. split; [exact Hlb|].
  rewrite Hsf, Hlb. reflexivity.
Defined.

Lemma move_up_moves_selected_items_witness :
  (gui.file_listbox demo_folder.window).*1 = gui.selected_files demo_folder.window
  /\ exists st',
       gui.move_up demo_folder.window = Some st'
       /\ gui.selected_files st' ≡ₚ ["a.txt"; "b.txt"; "c.md"; "d.txt"; "e.py"]
       /\ tk.curselection (gui.file_listbox st') = [0; 1; 3]%nat
       /\ gui.selected_files st' !! 3%nat = Some "e.py".
Proof.
  split; [reflexivity|].
  destruct (move_up_moves_selected_items demo_folder.window "a.txt"
    [("b.txt", true); ("c.md", true); ("d.txt", false); ("e.py", true)]
    eq_refl eq_refl) as (st' & Hm & _ & Hp & Hc & Hi).
  exists st'. split; [exact Hm|]. split; [exact Hp|]. split; [exact Hc|].
  apply (Hi 4%nat "e.py"); [|reflexivity].
  change (4%nat ∈ [1; 2; 4]%nat). set_solver.
Defined.

Lemma move_up_then_move_down_witness :
  (gui.file_listbox demo_folder.window).*1 = gui.selected_files demo_folder.window
  /\ exists st',
       gui.move_up demo_folder.window = Some st'
       /\ gui.move_down st' = Some demo_folder.window.
Proof.
  split; [reflexivity|].
  exact (move_up_then_move_down demo_folder.window "a.txt"
    [("b.txt", true); ("c.md", true); ("d.txt", false); ("e.py", true)]
    eq_refl eq_refl).
Defined.

Lemma add_files_from_list_appends_new_files_witness :
  exists st' dlg r,
    @gui.add_files_from_list demo.os demo.io "/proj/list.txt" demo_folder.window
    = inr st'
    /\ @parse_file_list demo.os demo.io (gui.selected_files demo_folder.window)
         "/proj/list.txt" = (dlg, inr r)
    /\ gui.selected_files st'
       = ["a.txt"; "b.txt"; "c.md"; "d.txt"; "e.py"] ++ added_paths r
    /\ added_paths r = ["/proj/docs/readme.md"].
Proof.
  eexists. 
  destruct (@add_files_from_list_appends_new_files demo.os demo.io
    "/proj/list.txt" demo_folder.window
    (match @gui.add_files_from_list demo.os demo.io "/proj/list.txt"
             demo_folder.window with
     | inr st' => st'
     | inl _ => demo_folder.window
     end) eq_refl) as (dlg & r & Hp & Hsf & _).
  { vm_compute. reflexivity. }
  exists dlg, r. split; [vm_compute; reflexivity|]. split; [exact Hp|].
  split; [exact Hsf|].
  assert (Hr : (@parse_file_list demo.os demo.io
                  (gui.selected_files demo_folder.window) "/proj/list.txt").2
               = inr r) by (by rewrite Hp).
  vm_compute in Hr. injection Hr as <-. reflexivity.
Defined.

Lemma window_stays_consistent_witness :
  gui.consistent demo_folder.window
  /\ (exists st', gui.remove_selected demo_folder.window = Some st'
                  /\ gui.consistent st')
  /\ (exists st', gui.move_down demo_folder.window = Some st'
                  /\ gui.consistent st')
  /\ gui.consistent (gui.sort_files demo_folder.window).
Proof.
  assert (Hc : gui.consistent demo_folder.window).
  { split; [reflexivity|]. split; [|intros _; reflexivity].
    apply (bool_decide_unpack (NoDup (gui.selected_files demo_folder.window))).
    vm_compute. exact I. }
  split; [exact Hc|].
  destruct (@window_stays_consistent demo.os demo.io demo_folder.dir
              demo_folder.window Hc)
    as (_ & _ & Hr & _ & _ & Hd & Hs & _).
  split; [exact Hr|]. split; [exact Hd|exact Hs].
Defined.

Lemma sort_files_sorts_the_window_witness :
  let st :=
    gui.with_selection demo_folder.window ["file10.txt"; "b.txt"; "file2.txt"]
      [("file10.txt", true); ("b.txt", false); ("file2.txt", false)] in
  ascii_names (gui.selected_files st) = true
  /\ gui.selected_files (gui.sort_files st) = ["b.txt"; "file2.txt"; "file10.txt"]
  /\ in_key_order (gui.selected_files (gui.sort_files st)) = true
  /\ tk.curselection (gui.file_listbox (gui.sort_files st)) = [].
Proof.
  intros st. split; [reflexivity|]. split; [reflexivity|].
  destruct (sort_files_sorts_the_window st eq_refl) as (_ & Hord & Hlb).
  split; [exact Hord|]. apply Hlb. discriminate.
Defined.

Lemma latin1_ends_the_chain_witness :
  ~ decode_failure (@open_readlines demo.io "/proj/bad.bin" "latin-1")
  /\ decode_failure (@open_readlines demo.io "/proj/bad.bin" "utf-8-sig")
  /\ decode_failure (@open_readlines demo.io "/proj/bad.bin" "cp1252")
  /\ (@parse_file_list demo.os demo.io [] "/proj/bad.bin").2
     = inr {| added_paths := [];
              already_present := [];
              not_found := [String (ascii_of_nat 129) "notes.txt"];
              skipped_not_allowed := [] |}
  /\ exists res,
       @parse_file_list demo.os demo.io [] "/proj/bad.bin" = ([], res)
       /\ forall m, res <> inl (UnicodeDecodeError m).
Proof.
  assert (Hl : ~ decode_failure
                 (@open_readlines demo.io "/proj/bad.bin" "latin-1")).
  { intros [m Hm]. vm_compute in Hm. discriminate Hm. }
  split; [exact Hl|]. split; [eexists; reflexivity|].
  split; [eexists; reflexivity|]. split; [vm_compute; reflexivity|].
  exact (@latin1_ends_the_chain demo.os demo.io [] "/proj/bad.bin" Hl).
Defined.
